(** * shign: shift estimation and alignment of two audio recordings

    A shallow embedding of [shign/util.py] and [shign/shign.py].

    - Python [int] is [Z]; a numpy array is a [list]; [len] is the list
      length as a [Z].
    - Python [float] is a type class [PyFloat] with two instances:
      [Q] (exact rational arithmetic, the idealised reading of the code)
      and [float] (IEEE 754 binary64, the arithmetic CPython really runs
      for the scalar conversions between milliseconds and samples).
      Statements that hold whatever the arithmetic are proved over the
      class. A statement on [Q] alone is about the idealised reading: it
      carries over to the code only where no rounding is involved. The
      binary64 instance is evaluated on concrete inputs, and [int] on it
      is characterised through the rational a float stands for.
    - A Python exception is a value of [py_error]; fallible code lives in
      the [result] monad, in the order the source evaluates it.
    - numpy, scipy and the builtins are modelled from their documented
      behaviour ([int], [min], [max], [range], slicing, [np.zeros],
      [np.mean], [np.sqrt], [np.round], [np.argmax],
      [scipy.signal.correlate] in mode ['full']). *)

From Stdlib Require Import ZArith QArith Qround Qabs Lqa List String Bool Lia Floats.
Import ListNotations.

Set Implicit Arguments.
Local Open Scope string_scope.
Local Open Scope list_scope.
Local Open Scope Z_scope.

(** ** Exceptions and the result monad *)

Inductive py_error : Type :=
| ValueError (msg : string)
| OverflowError (msg : string)
| AssertionError (msg : string)
| PyException (msg : string).

Inductive result (A : Type) : Type :=
| Ok (a : A)
| Err (e : py_error).

Arguments Ok {A} a.
Arguments Err {A} e.

Definition bind {A B : Type} (m : result A) (k : A -> result B) : result B :=
  match m with
  | Ok a => k a
  | Err e => Err e
  end.

Notation "x <- m ;; k" := (bind m (fun x => k))
  (at level 61, m at next level, right associativity).

(** The errors that shign's own statements raise ([assert] and
    [raise Exception(...)] in [shift_align]); every other error comes out
    of a builtin or of numpy/scipy. *)
Definition raised_by_shign (e : py_error) : bool :=
  match e with
  | AssertionError _ | PyException _ => true
  | ValueError _ | OverflowError _ => false
  end.

(** ** Python floats *)

(** The operations a float goes through in the two files. Division by
    zero is not modelled as an exception: the statements below keep sample
    rates and the hop length positive. *)

(** Why [int(x)] can fail on a float. *)
Inductive int_failure : Type := IsNaN | IsInfinite.

Class PyFloat (F : Type) : Type := {
  of_int : Z -> F;              (* int operand promoted to float *)
  fadd : F -> F -> F;
  fsub : F -> F -> F;
  fmul : F -> F -> F;
  fdiv : F -> F -> F;
  fneg : F -> F;
  fsqrt : F -> F;               (* np.sqrt *)
  fltb : F -> F -> bool;        (* x < y *)
  feqb : F -> F -> bool;        (* x == y *)
  trunc : F -> int_failure + Z  (* truncation toward zero *)
}.

(** Python's [int(x)] on a float. *)
Definition py_int {F} `{PyFloat F} (x : F) : result Z :=
  match trunc x with
  | inr z => Ok z
  | inl IsNaN => Err (ValueError "cannot convert float NaN to integer")
  | inl IsInfinite => Err (OverflowError "cannot convert float infinity to integer")
  end.

(** *** Exact instance: rationals *)

(** In this instance nothing rounds or overflows and [int] never fails:
    there is no NaN and no infinity. Where the code rounds (145 ms at
    48 kHz is 6959.999999999999 samples) the two instances give different
    counts. *)

(** Square root on [Q], in lowest terms: exact on squares of rationals,
    otherwise rounded down to a multiple of [1 / (den * 2^53)]. *)
Definition Qsqrt (q : Q) : Q :=
  Qred (Z.sqrt (Qnum q * Zpos (Qden q) * 2 ^ 106) # (Qden q * 2 ^ 53)).

Definition Qtrunc (q : Q) : Z := Z.quot (Qnum q) (Zpos (Qden q)).

Definition Qltb (x y : Q) : bool := negb (Qle_bool y x).

(** The sum in lowest terms: the same rational as [x + y], and the
    numbers of a long sum stay small. *)
Definition Qplus_red (x y : Q) : Q := Qred (x + y).

#[export] Instance Q_float : PyFloat Q := {
  of_int := inject_Z;
  fadd := Qplus_red;
  fsub := Qminus;
  fmul := Qmult;
  fdiv := Qdiv;
  fneg := Qopp;
  fsqrt := Qsqrt;
  fltb := Qltb;
  feqb := Qeq_bool;
  trunc := fun q => inr (Qtrunc q)
}.

(** *** IEEE 754 binary64 instance *)

Definition float_of_Z (z : Z) : float :=
  SF2Prim (binary_normalize prec emax z 0 false).

Definition float_trunc (f : float) : int_failure + Z :=
  match Prim2SF f with
  | S754_zero _ => inr 0%Z
  | S754_finite s m e =>
      let v := match e with
               | Z0 => Zpos m
               | Zpos p => Z.shiftl (Zpos m) (Zpos p)
               | Zneg p => Z.shiftr (Zpos m) (Zpos p)
               end in
      inr (if s then Z.opp v else v)
  | S754_infinity _ => inl IsInfinite
  | S754_nan => inl IsNaN
  end.

#[export] Instance IEEE_float : PyFloat float := {
  of_int := float_of_Z;
  fadd := PrimFloat.add;
  fsub := PrimFloat.sub;
  fmul := PrimFloat.mul;
  fdiv := PrimFloat.div;
  fneg := PrimFloat.opp;
  fsqrt := PrimFloat.sqrt;
  fltb := PrimFloat.ltb;
  feqb := PrimFloat.eqb;
  trunc := float_trunc
}.

(** ** Builtins and numpy *)

Definition len {A} (l : list A) : Z := Z.of_nat (List.length l).

Section Builtins.
Context {F : Type} `{PyFloat F}.

(** [min(a, b)] returns [a] unless [b < a]; [max(a, b)] returns [a]
    unless [b > a]. *)
Definition py_min (a b : F) : F := if fltb b a then b else a.
Definition py_max (a b : F) : F := if fltb a b then b else a.

(** [np.zeros(k)]. A count too large for the memory of the machine,
    which numpy refuses, is outside the model. *)
Definition np_zeros (k : Z) : result (list F) :=
  if (k <? 0)%Z then Err (ValueError "negative dimensions are not allowed")
  else Ok (repeat (of_int 0) (Z.to_nat k)).

Definition np_ones_like (l : list F) : list F := map (fun _ => of_int 1) l.

(** The sum from left to right. numpy adds pairwise: the same number in
    exact arithmetic, possibly other last bits in binary64. *)
Definition np_sum (l : list F) : F := fold_left fadd l (of_int 0).

Definition np_mean (l : list F) : F := fdiv (np_sum l) (of_int (len l)).

(** [np.argmax]: index of the first maximum; an empty array raises.
    (Arrays holding a NaN, where numpy answers the first NaN, are outside
    the model.) *)
Fixpoint argmax_from (l : list F) (i : Z) (best : F) (best_i : Z) : Z :=
  match l with
  | [] => best_i
  | x :: r => if fltb best x then argmax_from r (i + 1) x i
              else argmax_from r (i + 1) best best_i
  end.

Definition np_argmax (l : list F) : result Z :=
  match l with
  | [] => Err (ValueError "attempt to get argmax of an empty sequence")
  | x :: r => Ok (argmax_from r 1 x 0)
  end.
End Builtins.

(** [range(start, stop, step)]: the loop that produces the indices, with
    fuel [|stop - start|], which no step of size at least one outruns. *)
Fixpoint range_loop (fuel : nat) (i stop step : Z) : list Z :=
  match fuel with
  | O => []
  | S f =>
      if (if (0 <? step)%Z then (i <? stop)%Z else (stop <? i)%Z)
      then i :: range_loop f (i + step) stop step
      else []
  end.

Definition py_range (start stop step : Z) : result (list Z) :=
  if (step =? 0)%Z then Err (ValueError "range() arg 3 must not be zero")
  else Ok (range_loop (Z.to_nat (Z.abs (stop - start))) start stop step).

(** Slicing: a negative bound counts from the end, and every bound is
    clamped to [0, len]. [None] is an omitted bound. *)
Definition slice_index (n i : Z) : Z :=
  if (i <? 0)%Z then Z.max 0 (i + n) else Z.min i n.

Definition slice_start {A} (l : list A) (lo : option Z) : Z :=
  match lo with None => 0 | Some i => slice_index (len l) i end.

Definition slice_stop {A} (l : list A) (hi : option Z) : Z :=
  match hi with None => len l | Some i => slice_index (len l) i end.

(** [l[lo:hi]] *)
Definition py_slice {A} (l : list A) (lo hi : option Z) : list A :=
  let s := slice_start l lo in
  let e := slice_stop l hi in
  firstn (Z.to_nat (e - s)) (skipn (Z.to_nat s) l).

(** [l[lo:hi] = v] on a numpy array, [v] a scalar. *)
Definition py_slice_assign {A} (l : list A) (lo hi : option Z) (v : A) : list A :=
  let s := slice_start l lo in
  let e := slice_stop l hi in
  let k := Z.to_nat (e - s) in
  firstn (Z.to_nat s) l ++ repeat v k ++ skipn (Z.to_nat s + k) l.

(** [int(np.round(n / 2))] for an int [n]: numpy rounds halves to even. *)
Definition round_half (n : Z) : Z :=
  if Z.even n then (n / 2)%Z
  else if Z.even (n / 2) then (n / 2)%Z else (n / 2 + 1)%Z.

(** ** shign/util.py *)

Section Util.
Context {F : Type} `{PyFloat F}.

Definition frames_to_ms (frames frame_length_ms : F) : F :=
  fmul frames frame_length_ms.

Definition ms_to_frames (ms frame_length_ms : F) : result Z :=
  py_int (fdiv ms frame_length_ms).

Definition sec_to_samples (sec : F) (sr : Z) : result Z :=
  py_int (fmul sec (of_int sr)).

Definition ms_to_samples (ms : F) (sr : Z) : result Z :=
  sec_to_samples (fdiv ms (of_int 1000)) sr.

(** [samples / sr] divides two ints: the correctly rounded quotient,
    which is the quotient of the two floats while both are below 2^53.
    The [ZeroDivisionError] at [sr = 0] is outside the model. *)
Definition samples_to_sec (samples sr : Z) : F :=
  fdiv (of_int samples) (of_int sr).

Definition samples_to_ms (samples sr : Z) : F :=
  fmul (of_int 1000) (samples_to_sec samples sr).

Definition sec_to_frames (sec frame_length_ms : F) : result Z :=
  ms_to_frames (fmul (of_int 1000) sec) frame_length_ms.

(** One envelope value: [np.sqrt(np.mean(audio[i:i+win_length]**2))]. *)
Definition rms_frame (audio : list F) (win_length i : Z) : F :=
  fsqrt (np_mean (map (fun x => fmul x x)
                      (py_slice audio (Some i) (Some (i + win_length)%Z)))).

Definition audio_to_rms_envelope (audio : list F) (sr : Z)
    (win_length_ms hop_length_ms : F) : result (list F) :=
  win_length <- ms_to_samples win_length_ms sr ;;
  hop_length <- ms_to_samples hop_length_ms sr ;;
  idx <- py_range 0 (len audio - win_length) hop_length ;;
  Ok (map (rms_frame audio win_length) idx).
End Util.

(** [frames_to_sec], the one function of util.py that nothing calls. *)
Definition frames_to_sec {F} `{PyFloat F} (frames frame_length_ms : F) : F :=
  frames_to_ms frames (fdiv frame_length_ms (of_int 1000)).

(** ** shign/shign.py *)

Section Shign.
Context {F : Type} `{PyFloat F}.

(** Sum of the products of the pairs two arrays have in common from
    their starts. *)
Definition dot (x y : list F) : F :=
  np_sum (map (fun p => fmul (fst p) (snd p)) (combine x y)).

(** Entry [k] of [scipy.signal.correlate(x, y, mode='full')]:
    [z[k] = sum_l x[l] * y[l - k + N - 1]], [N = len(y)], over the [l]
    for which both indices exist. *)
Definition correlate_at (x y : list F) (k : Z) : F :=
  let j0 := len y - 1 - k in
  if 0 <=? j0 then dot x (skipn (Z.to_nat j0) y)
  else dot (skipn (Z.to_nat (- j0)) x) y.

(** [scipy.signal.correlate(x, y, mode='full')] on 1-d arrays, by the
    direct sum. With its default [method='auto'] scipy takes the direct
    sum or an FFT, by the sizes of the operands; the FFT gives the entries
    up to rounding, and in binary64 may order two nearly equal entries the
    other way. What is proved below about lengths, indices and zeroed
    entries does not depend on the values of the entries. An empty
    operand is refused by [np.convolve], where the computation ends up
    (the wording of the message is that of one numpy version). *)
Definition correlate (x y : list F) : result (list F) :=
  match x, y with
  | [], [] => Err (ValueError "a cannot be empty")
  | [], _ | _, [] => Err (ValueError "v cannot be empty")
  | _, _ =>
      Ok (map (fun k => correlate_at x y (Z.of_nat k))
              (seq 0 (List.length x + List.length y - 1)))
  end.

(** Element-wise [num / denom] of two arrays of one length. *)
Definition np_divide (num denom : list F) : list F :=
  map (fun p => fdiv (fst p) (snd p)) (combine num denom).

(** Lines 52-55: the [min_overlap_sec] constraint. *)
Definition constrain_min_overlap (corr : list F)
    (min_overlap_sec hop_length_ms : F) : result (list F) :=
  if negb (feqb min_overlap_sec (of_int 0)) then
    n <- sec_to_frames min_overlap_sec hop_length_ms ;;
    let corr := py_slice_assign corr None (Some n) (of_int 0) in
    let corr := py_slice_assign corr (Some (- n)) None (of_int 0) in
    Ok corr
  else Ok corr.

(** Lines 57-60: the [max_shift_sec] constraint. *)
Definition constrain_max_shift (corr : list F) (half_idx : Z)
    (max_shift_sec hop_length_ms : F) : result (list F) :=
  if negb (feqb max_shift_sec (of_int 0)) then
    n <- sec_to_frames max_shift_sec hop_length_ms ;;
    let corr :=
      py_slice_assign corr None (Some (Z.max (half_idx - n) 0)) (of_int 0) in
    let corr :=
      py_slice_assign corr (Some (Z.min (half_idx + n) (len corr))) None (of_int 0) in
    Ok corr
  else Ok corr.

(** Lines 47-60: the constrained normalized correlation of two
    envelopes, with [half_idx]. *)
Definition constrained_corr (rms_a rms_b : list F)
    (hop_length_ms min_overlap_sec max_shift_sec : F) : result (list F * Z) :=
  corr_num <- correlate rms_a rms_b ;;
  corr_denom <- correlate (np_ones_like rms_a) (np_ones_like rms_b) ;;
  let corr := np_divide corr_num corr_denom in
  let half_idx := round_half (len corr) in
  corr <- constrain_min_overlap corr min_overlap_sec hop_length_ms ;;
  corr <- constrain_max_shift corr half_idx max_shift_sec hop_length_ms ;;
  Ok (corr, half_idx).

Definition get_shift_ms (audio_a audio_b : list F) (sr_a sr_b : Z)
    (win_length_ms hop_length_ms min_overlap_sec max_shift_sec : F) : result F :=
  rms_a <- audio_to_rms_envelope audio_a sr_a win_length_ms hop_length_ms ;;
  rms_b <- audio_to_rms_envelope audio_b sr_b win_length_ms hop_length_ms ;;
  ch <- constrained_corr rms_a rms_b hop_length_ms min_overlap_sec max_shift_sec ;;
  let corr := fst ch in
  let half_idx := snd ch in
  am <- np_argmax corr ;;
  let shift_idx := of_int (am - half_idx) in
  let shift_idx :=
    fadd shift_idx (fdiv (of_int (len rms_a - len rms_b)) (of_int 2)) in
  Ok (frames_to_ms shift_idx hop_length_ms).

Definition pad_both (audio_a audio_b : list F) (sr_a sr_b : Z) (shift_ms : F)
    : result (list F * list F) :=
  let shift_start_ms := shift_ms in
  let shift_start_a_ms := fneg (py_min (of_int 0) shift_start_ms) in
  let shift_start_b_ms := py_max (of_int 0) shift_start_ms in
  shift_start_a_samples <- ms_to_samples shift_start_a_ms sr_a ;;
  shift_start_b_samples <- ms_to_samples shift_start_b_ms sr_b ;;
  za <- np_zeros shift_start_a_samples ;;
  let audio_a := za ++ audio_a in
  zb <- np_zeros shift_start_b_samples ;;
  let audio_b := zb ++ audio_b in
  let shift_end_ms :=
    fsub (samples_to_ms (len audio_a) sr_a) (samples_to_ms (len audio_b) sr_b) in
  let shift_end_a_ms := fneg (py_min (of_int 0) shift_end_ms) in
  let shift_end_b_ms := py_max (of_int 0) shift_end_ms in
  shift_end_a_samples <- ms_to_samples shift_end_a_ms sr_a ;;
  shift_end_b_samples <- ms_to_samples shift_end_b_ms sr_b ;;
  za <- np_zeros shift_end_a_samples ;;
  let audio_a := audio_a ++ za in
  zb <- np_zeros shift_end_b_samples ;;
  let audio_b := audio_b ++ zb in
  Ok (audio_a, audio_b).

Definition crop_both (audio_a audio_b : list F) (sr_a sr_b : Z) (shift_ms : F)
    : result (list F * list F) :=
  let shift_start_ms := shift_ms in
  let shift_start_a_ms := py_max (of_int 0) shift_start_ms in
  let shift_start_b_ms := fneg (py_min (of_int 0) shift_start_ms) in
  shift_start_a_samples <- ms_to_samples shift_start_a_ms sr_a ;;
  shift_start_b_samples <- ms_to_samples shift_start_b_ms sr_b ;;
  let audio_a := py_slice audio_a (Some shift_start_a_samples) None in
  let audio_b := py_slice audio_b (Some shift_start_b_samples) None in
  let shift_end_ms :=
    fsub (samples_to_ms (len audio_a) sr_a) (samples_to_ms (len audio_b) sr_b) in
  let shift_end_a_ms := py_max (of_int 0) shift_end_ms in
  let shift_end_b_ms := fneg (py_min (of_int 0) shift_end_ms) in
  shift_end_a_samples <- ms_to_samples shift_end_a_ms sr_a ;;
  shift_end_b_samples <- ms_to_samples shift_end_b_ms sr_b ;;
  let audio_a :=
    if 0 <? shift_end_a_samples
    then py_slice audio_a None (Some (- shift_end_a_samples)) else audio_a in
  let audio_b :=
    if 0 <? shift_end_b_samples
    then py_slice audio_b None (Some (- shift_end_b_samples)) else audio_b in
  Ok (audio_a, audio_b).

Definition pad_and_crop_one_to_match_other (audio_a audio_b : list F)
    (sr_a sr_b : Z) (shift_ms : F) : result (list F * list F) :=
  let shift_start_ms := shift_ms in
  shift_start_samples <- ms_to_samples shift_start_ms sr_b ;;
  audio_b <-
    (if shift_start_samples <? 0
     then Ok (py_slice audio_b (Some (Z.abs shift_start_samples)) None)
     else z <- np_zeros shift_start_samples ;; Ok (z ++ audio_b)) ;;
  let shift_end_ms :=
    fsub (samples_to_ms (len audio_a) sr_a) (samples_to_ms (len audio_b) sr_b) in
  shift_end_samples <- ms_to_samples shift_end_ms sr_b ;;
  audio_b <-
    (if shift_end_samples <? 0
     then Ok (py_slice audio_b None (Some (- Z.abs shift_end_samples)))
     else z <- np_zeros shift_end_samples ;; Ok (audio_b ++ z)) ;;
  Ok (audio_a, audio_b).

(** [assert sr is not None, msg] *)
Definition assert_not_none (sr : option Z) (msg : string) : result Z :=
  match sr with
  | Some v => Ok v
  | None => Err (AssertionError msg)
  end.

Definition sr_message : string :=
  "please submit a path to an audio file or an audio array with explicit samplerate".

(** [shift_align] on two arrays (a path argument is decoded by librosa
    before line 312 and arrives there as an array with its rate). The
    call of [get_shift_ms] leaves the window and the hop at their
    defaults, 25 and 10 ms. *)
Definition shift_align (audio_a audio_b : list F) (sr_a sr_b : option Z)
    (align_how : string) (min_overlap_sec max_shift_sec : F)
    : result (list F * list F) :=
  sr_a <- assert_not_none sr_a sr_message ;;
  sr_b <- assert_not_none sr_b sr_message ;;
  shift_ms <- get_shift_ms audio_a audio_b sr_a sr_b
                (of_int 25) (of_int 10) min_overlap_sec max_shift_sec ;;
  if String.eqb align_how "pad_both" then
    pad_both audio_a audio_b sr_a sr_b shift_ms
  else if String.eqb align_how "crop_both" then
    crop_both audio_a audio_b sr_a sr_b shift_ms
  else if String.eqb align_how "pad_and_crop_one_to_match_other" then
    pad_and_crop_one_to_match_other audio_a audio_b sr_a sr_b shift_ms
  else Err (PyException ("Unknown value for align_how " ++ align_how)).
End Shign.

(** ** The specification's reading of the conversion: [round] *)

(** Python's [round(x)]: to the nearest integer, halves to even. *)
Definition py_round (q : Q) : Z :=
  let f := Qfloor q in
  let r := (q - inject_Z f)%Q in
  if Qltb r (1 # 2) then f
  else if Qltb (1 # 2) r then f + 1
  else if Z.even f then f else f + 1.

(** How many indices [i, i + step, ...] lie below [stop], [step > 0]. *)
Definition range_count (i stop step : Z) : nat :=
  Z.to_nat ((stop - i + step - 1) / step).

(** ** Inputs used in the examples *)

(** [n] samples of constant amplitude 0.5, exact and binary64. *)
Definition steady (n : nat) : list Q := repeat (1 # 2)%Q n.
Definition steady64 (n : nat) : list float := repeat 0.5%float n.

(** 250 samples at 100 Hz (2.5 s): loud (0.7) for the first and the last
    102 samples, quiet (0.1) in between. With the window of 2 samples the
    frames are 0.7, 0.5 and 0.1, all exact. *)
Definition two_bursts : list Q :=
  repeat (7 # 10)%Q 102 ++ repeat (1 # 10)%Q 46 ++ repeat (7 # 10)%Q 102.

(** 112 samples at 100 Hz: one loud passage of 20 samples in the middle
    of a quiet recording. *)
Definition one_burst : list Q :=
  repeat (1 # 10)%Q 46 ++ repeat (7 # 10)%Q 20 ++ repeat (1 # 10)%Q 46.

(** ** What [int] does to the value of a float *)

(** [z] is [v] truncated toward zero: of the sign of [v], and
    [|z| <= |v| < |z| + 1]. *)
Definition truncation (v : Q) (z : Z) : Prop :=
  (Qabs (inject_Z z) <= Qabs v /\ Qabs v < Qabs (inject_Z z) + 1 /\
   0 <= inject_Z z * v)%Q.

(** The rational a finite binary64 number stands for,
    [(-1)^s * m * 2^e]; infinities and NaN stand for none. *)
Definition float_value (f : float) : option Q :=
  match Prim2SF f with
  | S754_zero _ => Some 0%Q
  | S754_finite s m e =>
      let v := match e with
               | Z0 => inject_Z (Zpos m)
               | Zpos p => inject_Z (Zpos m * 2 ^ Zpos p)
               | Zneg p => Zpos m # (2 ^ p)
               end in
      Some (if s then (- v)%Q else v)
  | S754_infinity _ | S754_nan => None
  end.

(** * Facts about the exact instance *)

Module QFacts.

Lemma Qltb_lt (x y : Q) : Qltb x y = true <-> (x < y)%Q.
Proof.
  unfold Qltb. rewrite negb_true_iff.
  destruct (Qle_bool y x) eqn:E.
  - apply Qle_bool_iff in E. split; [discriminate | intro L].
    exfalso. apply (Qlt_irrefl x). eapply Qlt_le_trans; eauto.
  - split; [intros _ | reflexivity].
    apply Qnot_le_lt. intro L. apply Qle_bool_iff in L. congruence.
Qed.

Lemma Qltb_ge (x y : Q) : Qltb x y = false <-> (y <= x)%Q.
Proof.
  unfold Qltb. rewrite negb_false_iff. apply Qle_bool_iff.
Qed.

Lemma Qtrunc_nonneg (q : Q) : (0 <= q)%Q -> Qtrunc q = Qfloor q.
Proof.
  destruct q as [n d]. unfold Qle, Qtrunc, Qfloor. simpl. intro Hn.
  apply Z.quot_div_nonneg; lia.
Qed.

Lemma Qtrunc_opp (q : Q) : Qtrunc (- q) = - Qtrunc q.
Proof.
  destruct q as [n d]. unfold Qtrunc. simpl. apply Z.quot_opp_l. lia.
Qed.

Lemma Qtrunc_comp (p q : Q) : (p == q)%Q -> Qtrunc p = Qtrunc q.
Proof.
  intro E. destruct (Qlt_le_dec p 0) as [L | L].
  - assert (Hp : (0 <= - p)%Q).
    { rewrite <- (Qopp_involutive 0) at 1. apply Qopp_le_compat.
      apply Qlt_le_weak. exact L. }
    assert (Hq : (0 <= - q)%Q) by (rewrite <- E; exact Hp).
    apply Z.opp_inj. rewrite <- !Qtrunc_opp.
    rewrite !Qtrunc_nonneg by assumption.
    apply Qfloor_comp. rewrite E. reflexivity.
  - assert (Hq : (0 <= q)%Q) by (rewrite <- E; exact L).
    rewrite !Qtrunc_nonneg by assumption. apply Qfloor_comp. exact E.
Qed.

Lemma Qtrunc_inject_Z (z : Z) : Qtrunc (inject_Z z) = z.
Proof. unfold Qtrunc. simpl. apply Z.quot_1_r. Qed.

Lemma Qtrunc_sign_nonneg (q : Q) : (0 <= q)%Q -> 0 <= Qtrunc q.
Proof.
  intro Hq. rewrite Qtrunc_nonneg by exact Hq.
  change 0 with (Qfloor 0). apply Qfloor_resp_le. exact Hq.
Qed.

(** Truncation keeps the integer within one of the rational, on the side
    of zero. *)
Lemma Qtrunc_bounds_nonneg (q : Q) :
  (0 <= q)%Q -> (inject_Z (Qtrunc q) <= q /\ q < inject_Z (Qtrunc q + 1))%Q.
Proof.
  intro Hq. rewrite Qtrunc_nonneg by exact Hq. split.
  - apply Qfloor_le.
  - apply Qlt_floor.
Qed.

Lemma py_int_Q (q : Q) : py_int q = Ok (Qtrunc q).
Proof. reflexivity. Qed.

Lemma ms_to_samples_Q (ms : Q) (sr : Z) :
  ms_to_samples ms sr = Ok (Qtrunc (ms / 1000 * inject_Z sr)).
Proof. reflexivity. Qed.

Lemma sec_to_frames_Q (sec fl : Q) :
  sec_to_frames sec fl = Ok (Qtrunc (1000 * sec / fl)).
Proof. reflexivity. Qed.

End QFacts.

(** * Conversion of milliseconds to samples (util.py, lines 12-22) *)

Module Conversion.
Import QFacts.

(** On the exact instance [ms_to_samples(ms, sr)] is the value
    [x = ms / 1000 * sr] truncated toward zero: the returned count [k] has
    the sign of [x] and [|k| <= |x| < |k| + 1]. *)
Theorem ms_to_samples_truncates (ms : Q) (sr : Z) :
  exists k : Z,
    ms_to_samples ms sr = Ok k /\
    (Qabs (inject_Z k) <= Qabs (ms / 1000 * inject_Z sr) /\
     Qabs (ms / 1000 * inject_Z sr) < Qabs (inject_Z k) + 1 /\
     0 <= inject_Z k * (ms / 1000 * inject_Z sr))%Q.
Proof.
  set (x := (ms / 1000 * inject_Z sr)%Q).
  exists (Qtrunc x). split; [apply ms_to_samples_Q |].
  destruct (Qlt_le_dec x 0) as [L | L].
  - assert (Hn : (0 <= - x)%Q).
    { rewrite <- (Qopp_involutive 0) at 1. apply Qopp_le_compat.
      apply Qlt_le_weak. exact L. }
    destruct (Qtrunc_bounds_nonneg Hn) as [B1 B2].
    pose proof (Qtrunc_sign_nonneg Hn) as S.
    rewrite Qtrunc_opp in B1, B2, S.
    assert (K : (inject_Z (Qtrunc x) <= 0)%Q).
    { change 0%Q with (inject_Z 0). rewrite <- Zle_Qle. lia. }
    rewrite (Qabs_neg x) by (apply Qlt_le_weak; exact L).
    rewrite (Qabs_neg (inject_Z (Qtrunc x))) by exact K.
    rewrite <- inject_Z_opp.
    repeat split.
    + exact B1.
    + eapply Qlt_le_trans; [exact B2 |].
      rewrite inject_Z_plus. apply Qle_refl.
    + setoid_replace (inject_Z (Qtrunc x) * x)%Q
        with ((- inject_Z (Qtrunc x)) * (- x))%Q by ring.
      apply Qmult_le_0_compat; [| exact Hn].
      rewrite <- inject_Z_opp. change 0%Q with (inject_Z 0).
      rewrite <- Zle_Qle. lia.
  - destruct (Qtrunc_bounds_nonneg L) as [B1 B2].
    pose proof (Qtrunc_sign_nonneg L) as S.
    assert (K : (0 <= inject_Z (Qtrunc x))%Q).
    { change 0%Q with (inject_Z 0). rewrite <- Zle_Qle. exact S. }
    rewrite (Qabs_pos x) by exact L.
    rewrite (Qabs_pos (inject_Z (Qtrunc x))) by exact K.
    repeat split.
    + exact B1.
    + eapply Qlt_le_trans; [exact B2 |].
      rewrite inject_Z_plus. apply Qle_refl.
    + apply Qmult_le_0_compat; assumption.
Qed.

(** C9 as stated fails: a displacement of 0.1 ms at 16 kHz is 1.6
    samples; [round] gives 2, the code returns 1, in exact and in binary64
    arithmetic alike. *)
Lemma ms_to_samples_not_round :
  ms_to_samples (1 # 10)%Q 16000 = Ok 1 /\
  ms_to_samples (fdiv (float_of_Z 1) (float_of_Z 10)) 16000 = Ok 1 /\
  py_round ((1 # 10) / 1000 * inject_Z 16000) = 2 /\
  ms_to_samples (1 # 10)%Q 16000
    <> Ok (py_round ((1 # 10) / 1000 * inject_Z 16000)).
Proof.
  split; [| split; [| split]]; try (vm_compute; reflexivity).
  vm_compute. discriminate.
Qed.

End Conversion.

(** * The envelope extractor (util.py, lines 51-56) *)

Module Envelope.

Lemma range_count_stop (i stop step : Z) :
  0 < step -> stop <= i -> range_count i stop step = O.
Proof.
  intros Hs Hi. unfold range_count.
  assert ((stop - i + step - 1) / step <= 0); [| lia].
  assert ((stop - i + step - 1) / step < 1); [| lia].
  apply Z.div_lt_upper_bound; lia.
Qed.

Lemma range_count_step (i stop step : Z) :
  0 < step -> i < stop ->
  range_count i stop step = S (range_count (i + step) stop step).
Proof.
  intros Hs Hi. unfold range_count.
  replace (stop - i + step - 1) with ((stop - (i + step) + step - 1) + 1 * step) by lia.
  rewrite Z.div_add by lia.
  assert (0 <= (stop - (i + step) + step - 1) / step).
  { apply Z.div_pos; lia. }
  lia.
Qed.

Lemma range_loop_length (fuel : nat) (i stop step : Z) :
  0 < step -> stop - i <= Z.of_nat fuel ->
  List.length (range_loop fuel i stop step) = range_count i stop step.
Proof.
  intro Hs. revert i. induction fuel as [| f IH]; intros i Hf.
  - simpl. symmetry. apply range_count_stop; lia.
  - cbn [range_loop]. replace (0 <? step) with true by (symmetry; apply Z.ltb_lt; lia).
    destruct (i <? stop) eqn:E.
    + apply Z.ltb_lt in E. cbn [List.length]. rewrite IH by lia.
      symmetry. apply range_count_step; lia.
    + apply Z.ltb_ge in E. symmetry. apply range_count_stop; lia.
Qed.

Lemma range_loop_nth (fuel : nat) (i stop step : Z) (j : nat) :
  0 < step -> (j < List.length (range_loop fuel i stop step))%nat ->
  nth j (range_loop fuel i stop step) 0 = i + Z.of_nat j * step.
Proof.
  intro Hs. revert i j. induction fuel as [| f IH]; intros i j Hj.
  - simpl in Hj. lia.
  - cbn [range_loop] in *.
    replace (0 <? step) with true in * by (symmetry; apply Z.ltb_lt; lia).
    destruct (i <? stop) eqn:E.
    + destruct j as [| j].
      * simpl. lia.
      * cbn [nth]. cbn [List.length] in Hj. rewrite IH by lia. lia.
    + simpl in Hj. lia.
Qed.

(** The number of frames, as an integer formula: the ceiling of
    [(n - w) / h], and none when [n <= w]. *)
Lemma range_count_ceiling (stop step : Z) :
  0 < step ->
  Z.of_nat (range_count 0 stop step) = Z.max 0 ((stop + step - 1) / step).
Proof.
  intro Hs. unfold range_count. rewrite Z.sub_0_r.
  destruct (Z_le_gt_dec 0 ((stop + step - 1) / step)); lia.
Qed.

Section Frames.
Context {F : Type} `{PyFloat F}.

(** C4, as amended: with a window of [w >= 0] samples and a hop of
    [h >= 1] samples the envelope has one RMS frame per starting index
    [i = 0, h, 2h, ...] with [i + w < n] (strictly), in order; its
    length is the ceiling of [(n - w) / h], and 0 when [n <= w]. *)
Theorem envelope_frames (audio : list F) (sr : Z) (win_length_ms hop_length_ms : F)
    (w h : Z) :
  ms_to_samples win_length_ms sr = Ok w ->
  ms_to_samples hop_length_ms sr = Ok h ->
  1 <= h ->
  exists env : list F,
    audio_to_rms_envelope audio sr win_length_ms hop_length_ms = Ok env /\
    len env = Z.max 0 ((len audio - w + h - 1) / h) /\
    (forall j : Z, 0 <= j -> (j < len env <-> j * h + w < len audio)) /\
    (forall j : Z, 0 <= j < len env ->
       nth (Z.to_nat j) env (of_int 0) = rms_frame audio w (j * h)).
Proof.
  intros Hw Hh Hpos.
  unfold audio_to_rms_envelope. rewrite Hw, Hh. cbn [bind].
  unfold py_range. replace (h =? 0) with false by (symmetry; apply Z.eqb_neq; lia).
  cbn [bind]. eexists. split; [reflexivity |].
  set (stop := len audio - w).
  set (idx := range_loop (Z.to_nat (Z.abs (stop - 0))) 0 stop h).
  assert (Hlen : List.length idx = range_count 0 stop h).
  { apply range_loop_length; lia. }
  assert (Hl : len (map (rms_frame audio w) idx) = Z.max 0 ((stop + h - 1) / h)).
  { unfold len. rewrite length_map, Hlen. apply range_count_ceiling. lia. }
  split; [exact Hl |]. split.
  - intros j Hj. rewrite Hl.
    assert (D : h * ((stop + h - 1) / h) <= stop + h - 1)
      by (apply Z.mul_div_le; lia).
    assert (M : stop + h - 1 < h * ((stop + h - 1) / h) + h).
    { pose proof (Z.mod_pos_bound (stop + h - 1) h ltac:(lia)).
      pose proof (Z.div_mod (stop + h - 1) h ltac:(lia)). lia. }
    split; intro L.
    + assert (j + 1 <= (stop + h - 1) / h) by lia.
      assert (h * (j + 1) <= h * ((stop + h - 1) / h))
        by (apply Z.mul_le_mono_nonneg_l; lia).
      unfold stop in *. lia.
    + assert (j < (stop + h - 1) / h); [| lia].
      apply (Z.mul_lt_mono_pos_l h); [lia |]. unfold stop in *. lia.
  - intros j Hj.
    assert (Hn : (Z.to_nat j < List.length idx)%nat).
    { unfold len in Hj. rewrite length_map in Hj. lia. }
    rewrite (nth_indep _ (of_int 0) (rms_frame audio w 0))
      by (rewrite length_map; exact Hn).
    rewrite map_nth. f_equal. unfold idx.
    rewrite range_loop_nth by (fold idx; lia). lia.
Qed.
End Frames.

(** A 10-sample waveform at 1 kHz with a 3 ms window and a 2 ms hop:
    frames start at 0, 2, 4, 6 (8 + 3 > 10, and 7 is no multiple of 2). *)
Lemma envelope_frames_example :
  exists env : list Q,
    audio_to_rms_envelope (steady 10) 1000 3%Q 2%Q = Ok env /\
    len env = Z.max 0 ((len (steady 10) - 3 + 2 - 1) / 2) /\
    (forall j : Z, 0 <= j -> (j < len env <-> j * 2 + 3 < len (steady 10))) /\
    (forall j : Z, 0 <= j < len env ->
       nth (Z.to_nat j) env (of_int 0) = rms_frame (steady 10) 3 (j * 2)).
Proof.
  apply (@envelope_frames Q Q_float (steady 10) 1000 3%Q 2%Q 3 2).
  - reflexivity.
  - reflexivity.
  - lia.
Defined.

(** C4 as stated fails. A waveform of exactly [n = w = 25] samples has
    the index [i = 0] with [i + w <= n], yet its envelope is empty; a
    waveform of [n = 26] samples has [floor((n - w) / h) = 0], yet its
    envelope has one frame. *)
Lemma envelope_length_not_floor :
  audio_to_rms_envelope (steady 25) 1000 25%Q 10%Q = Ok [] /\
  (exists e : Q, audio_to_rms_envelope (steady 26) 1000 25%Q 10%Q = Ok [e]) /\
  ms_to_samples 25%Q 1000 = Ok 25 /\
  ms_to_samples 10%Q 1000 = Ok 10 /\
  Z.max 0 ((26 - 25) / 10) = 0.
Proof.
  split; [vm_compute; reflexivity |].
  split; [vm_compute; eexists; reflexivity |].
  repeat split.
Qed.

End Envelope.

(** * Degenerate input to the shift estimator (shign.py, lines 44-66) *)

Module Degenerate.

Section Errors.
Context {F : Type} `{PyFloat F}.

Lemma py_int_error (x : F) (e : py_error) :
  py_int x = Err e -> raised_by_shign e = false.
Proof.
  unfold py_int. destruct (trunc x) as [[|] | z]; intro E;
    inversion E; reflexivity.
Qed.

Lemma ms_to_samples_error (ms : F) (sr : Z) (e : py_error) :
  ms_to_samples ms sr = Err e -> raised_by_shign e = false.
Proof. apply py_int_error. Qed.

Lemma envelope_error (audio : list F) (sr : Z) (win hop : F) (e : py_error) :
  audio_to_rms_envelope audio sr win hop = Err e -> raised_by_shign e = false.
Proof.
  unfold audio_to_rms_envelope.
  destruct (ms_to_samples win sr) as [w | e1] eqn:Ew; cbn [bind].
  2: { intro E; inversion E; subst. eapply ms_to_samples_error; eauto. }
  destruct (ms_to_samples hop sr) as [h | e1] eqn:Eh; cbn [bind].
  2: { intro E; inversion E; subst. eapply ms_to_samples_error; eauto. }
  unfold py_range. destruct (h =? 0); cbn [bind]; intro E; inversion E.
  reflexivity.
Qed.

(** A waveform of at most [w] samples has an empty envelope. *)
Lemma envelope_short (audio : list F) (sr : Z) (win hop : F) (w h : Z)
    (env : list F) :
  ms_to_samples win sr = Ok w ->
  ms_to_samples hop sr = Ok h ->
  0 <= h ->
  len audio <= w ->
  audio_to_rms_envelope audio sr win hop = Ok env ->
  env = [].
Proof.
  intros Hw Hh Hpos Hshort. unfold audio_to_rms_envelope.
  rewrite Hw, Hh. cbn [bind]. unfold py_range.
  destruct (h =? 0) eqn:E0; cbn [bind]; intro E; inversion E.
  apply Z.eqb_neq in E0.
  destruct (Z.to_nat (Z.abs (len audio - w - 0))); [reflexivity |].
  cbn [range_loop].
  replace (0 <? h) with true by (symmetry; apply Z.ltb_lt; lia).
  replace (0 <? len audio - w) with false by (symmetry; apply Z.ltb_ge; lia).
  reflexivity.
Qed.

Lemma correlate_empty (x y : list F) :
  x = [] \/ y = [] -> exists msg, correlate x y = Err (ValueError msg).
Proof.
  intros [-> | ->].
  - destruct y; eexists; reflexivity.
  - destruct x; eexists; reflexivity.
Qed.

(** C1, as amended: when at least one waveform has at most
    [win_length] samples (its envelope is empty), [get_shift_ms]
    returns no value; it makes no degenerate-input check of its own, and
    the error it ends with is one raised inside a builtin or the numeric
    library (here for the empty operand of the correlation), not an
    error raised by shign. *)
Theorem get_shift_ms_empty_envelope (audio_a audio_b : list F) (sr_a sr_b : Z)
    (win hop min_overlap_sec max_shift_sec : F) (w_a h_a w_b h_b : Z) :
  ms_to_samples win sr_a = Ok w_a ->
  ms_to_samples hop sr_a = Ok h_a ->
  ms_to_samples win sr_b = Ok w_b ->
  ms_to_samples hop sr_b = Ok h_b ->
  0 <= h_a -> 0 <= h_b ->
  len audio_a <= w_a \/ len audio_b <= w_b ->
  exists e : py_error,
    get_shift_ms audio_a audio_b sr_a sr_b win hop min_overlap_sec max_shift_sec
      = Err e /\
    raised_by_shign e = false.
Proof.
  intros Hwa Hha Hwb Hhb Pa Pb Hshort. unfold get_shift_ms.
  destruct (audio_to_rms_envelope audio_a sr_a win hop) as [ea | e] eqn:Ea;
    cbn [bind].
  2: { exists e. split; [reflexivity |]. eapply envelope_error; eauto. }
  destruct (audio_to_rms_envelope audio_b sr_b win hop) as [eb | e] eqn:Eb;
    cbn [bind].
  2: { exists e. split; [reflexivity |]. eapply envelope_error; eauto. }
  assert (Hempty : ea = [] \/ eb = []).
  { destruct Hshort as [S | S].
    - left.
      eapply envelope_short; [exact Hwa | exact Hha | exact Pa | exact S | exact Ea].
    - right.
      eapply envelope_short; [exact Hwb | exact Hhb | exact Pb | exact S | exact Eb]. }
  destruct (correlate_empty Hempty) as [msg Hc].
  unfold constrained_corr. rewrite Hc. cbn [bind].
  exists (ValueError msg). split; reflexivity.
Qed.
End Errors.

(** A 3-sample and a 60-sample waveform at 1 kHz, default parameters: the
    window is 25 samples, the first envelope is empty. *)
Lemma get_shift_ms_empty_envelope_example :
  exists e : py_error,
    get_shift_ms (steady 3) (steady 60) 1000 1000 25%Q 10%Q 1%Q 30%Q = Err e /\
    raised_by_shign e = false.
Proof.
  apply (@get_shift_ms_empty_envelope Q Q_float (steady 3) (steady 60)
           1000 1000 25%Q 10%Q 1%Q 30%Q 25 10 25 10).
  all: try reflexivity; try lia.
  left. vm_compute. discriminate.
Defined.

(** C1 as stated fails: on that input the call ends in numpy's
    [ValueError] for an empty operand, which is no error of shign's own. *)
Lemma get_shift_ms_no_degenerate_input_error :
  get_shift_ms (steady 3) (steady 60) 1000 1000 25%Q 10%Q 1%Q 30%Q
    = Err (ValueError "v cannot be empty") /\
  ~ (exists e : py_error,
       get_shift_ms (steady 3) (steady 60) 1000 1000 25%Q 10%Q 1%Q 30%Q = Err e /\
       raised_by_shign e = true).
Proof.
  assert (E : get_shift_ms (steady 3) (steady 60) 1000 1000 25%Q 10%Q 1%Q 30%Q
              = Err (ValueError "v cannot be empty")) by (vm_compute; reflexivity).
  split; [exact E |].
  intros [e [He Hr]]. rewrite E in He. inversion He; subst. discriminate.
Qed.

End Degenerate.

(** * Dispatch on the alignment policy (shign.py, lines 307-326) *)

Module Dispatch.

Section Unknown.
Context {F : Type} `{PyFloat F}.

(** C8, as amended: for an [align_how] outside the three policy names
    [shift_align] never returns a pair, but the rejection is the last
    step, not the first: shift estimation runs before the name is looked
    at. When estimation fails, its error is what the caller gets; when
    it succeeds, the call ends with
    [Exception("Unknown value for align_how ...")]. *)
Theorem shift_align_unknown_policy (audio_a audio_b : list F) (sr_a sr_b : Z)
    (align_how : string) (min_overlap_sec max_shift_sec : F) :
  align_how <> "pad_both" ->
  align_how <> "crop_both" ->
  align_how <> "pad_and_crop_one_to_match_other" ->
  shift_align audio_a audio_b (Some sr_a) (Some sr_b) align_how
              min_overlap_sec max_shift_sec
  = match get_shift_ms audio_a audio_b sr_a sr_b (of_int 25) (of_int 10)
                       min_overlap_sec max_shift_sec with
    | Ok _ => Err (PyException ("Unknown value for align_how " ++ align_how))
    | Err e => Err e
    end.
Proof.
  intros N1 N2 N3. unfold shift_align. cbn [assert_not_none bind].
  destruct (get_shift_ms audio_a audio_b sr_a sr_b (of_int 25) (of_int 10)
              min_overlap_sec max_shift_sec) as [s | e]; [| reflexivity].
  apply String.eqb_neq in N1, N2, N3. rewrite N1, N2, N3. reflexivity.
Qed.
End Unknown.

Lemma shift_align_unknown_policy_example :
  shift_align (steady 60) (steady 60) (Some 1000) (Some 1000) "pad_neither" 1%Q 30%Q
  = match get_shift_ms (steady 60) (steady 60) 1000 1000 (of_int 25) (of_int 10)
                       1%Q 30%Q with
    | Ok _ => Err (PyException ("Unknown value for align_how " ++ "pad_neither"))
    | Err e => Err e
    end.
Proof.
  apply (@shift_align_unknown_policy Q Q_float (steady 60) (steady 60) 1000 1000
           "pad_neither" 1%Q 30%Q); discriminate.
Defined.

(** C8 as stated fails: with an unknown policy name and a waveform too
    short for one window, the caller sees the error of the shift
    estimation, which therefore ran first, and not the rejection of the
    name. *)
Lemma shift_align_rejects_late :
  shift_align (steady 3) (steady 60) (Some 1000) (Some 1000) "pad_neither" 1%Q 30%Q
    = Err (ValueError "v cannot be empty") /\
  shift_align (steady 3) (steady 60) (Some 1000) (Some 1000) "pad_neither" 1%Q 30%Q
    <> Err (PyException "Unknown value for align_how pad_neither").
Proof.
  assert (E : shift_align (steady 3) (steady 60) (Some 1000) (Some 1000)
                "pad_neither" 1%Q 30%Q = Err (ValueError "v cannot be empty"))
    by (vm_compute; reflexivity).
  split; [exact E |]. rewrite E. discriminate.
Qed.

End Dispatch.

(** * Normalization by the overlap count (shign.py, lines 47-49) *)

Module Overlap.

Lemma len_cons {A} (a : A) (l : list A) : len (a :: l) = len l + 1.
Proof. unfold len. cbn [List.length]. lia. Qed.

Lemma len_nonneg {A} (l : list A) : 0 <= len l.
Proof. unfold len. lia. Qed.

Lemma len_ones (l : list Q) : len (np_ones_like l) = len l.
Proof. unfold len, np_ones_like. rewrite length_map. reflexivity. Qed.

Lemma len_skipn {A} (n : nat) (l : list A) :
  Z.of_nat n <= len l -> len (skipn n l) = len l - Z.of_nat n.
Proof. unfold len. rewrite length_skipn. lia. Qed.

Lemma ones_skipn (n : nat) (l : list Q) :
  skipn n (np_ones_like l) = np_ones_like (skipn n l).
Proof. unfold np_ones_like. apply skipn_map. Qed.

Lemma fold_left_Qplus_acc (l : list Q) (a : Q) :
  (fold_left Qplus_red l a == a + fold_left Qplus_red l 0)%Q.
Proof.
  revert a. induction l as [| x l IH]; intro a; cbn [fold_left].
  - ring.
  - rewrite (IH (Qplus_red a x)), (IH (Qplus_red 0 x)).
    unfold Qplus_red. rewrite !Qred_correct. ring.
Qed.

(** Two all-ones arrays have as many pairs in common as the shorter one
    has entries. *)
Lemma dot_ones (x y : list Q) :
  (dot (np_ones_like x) (np_ones_like y) == inject_Z (Z.min (len x) (len y)))%Q.
Proof.
  revert y. induction x as [| a x IH]; intro y.
  - change (len (@nil Q)) with 0. rewrite Z.min_l by apply len_nonneg.
    reflexivity.
  - destruct y as [| b y].
    + change (len (@nil Q)) with 0. rewrite Z.min_r by apply len_nonneg.
      reflexivity.
    + specialize (IH y). unfold dot, np_sum in *.
      cbn [np_ones_like map combine fold_left fst snd].
      rewrite fold_left_Qplus_acc. fold (np_ones_like x) (np_ones_like y).
      rewrite IH, !len_cons, Z.add_min_distr_r, inject_Z_plus.
      cbn. ring.
Qed.

(** The overlap count at lag index [k]. *)
Lemma correlate_at_ones (x y : list Q) (k : Z) :
  0 <= k < len x + len y - 1 ->
  (correlate_at (np_ones_like x) (np_ones_like y) k
   == inject_Z (Z.min (Z.min (k + 1) (len x + len y - 1 - k))
                      (Z.min (len x) (len y))))%Q.
Proof.
  intro Hk. unfold correlate_at. rewrite len_ones.
  destruct (0 <=? len y - 1 - k) eqn:E.
  - apply Z.leb_le in E. rewrite ones_skipn, dot_ones, len_skipn by lia.
    apply inject_Z_injective. lia.
  - apply Z.leb_gt in E. rewrite ones_skipn, dot_ones, len_skipn by lia.
    apply inject_Z_injective. lia.
Qed.

(** When the correlation is the exact sum, the overlap-count sequence of
    two non-empty envelopes has [len(rms_a) + len(rms_b) - 1] entries, each
    at least 1. *)
Theorem overlap_count_at_least_one (rms_a rms_b : list Q) :
  rms_a <> [] -> rms_b <> [] ->
  exists corr_denom : list Q,
    correlate (np_ones_like rms_a) (np_ones_like rms_b) = Ok corr_denom /\
    len corr_denom = len rms_a + len rms_b - 1 /\
    Forall (fun c => (1 <= c)%Q /\ ~ (c == 0)%Q) corr_denom.
Proof.
  intros Ha Hb.
  destruct rms_a as [| a ra]; [congruence |].
  destruct rms_b as [| b rb]; [congruence |].
  set (x := a :: ra). set (y := b :: rb).
  exists (map (fun k => correlate_at (np_ones_like x) (np_ones_like y) (Z.of_nat k))
              (seq 0 (List.length (np_ones_like x) + List.length (np_ones_like y) - 1))).
  split; [reflexivity |].
  assert (Hx : List.length (np_ones_like x) = List.length x)
    by apply length_map.
  assert (Hy : List.length (np_ones_like y) = List.length y)
    by apply length_map.
  assert (Px : 1 <= len x) by (unfold x; rewrite len_cons; pose proof (len_nonneg ra); lia).
  assert (Py : 1 <= len y) by (unfold y; rewrite len_cons; pose proof (len_nonneg rb); lia).
  split.
  - unfold len. rewrite length_map, length_seq, Hx, Hy. unfold len in Px, Py. lia.
  - apply Forall_forall. intros c Hc.
    apply in_map_iff in Hc. destruct Hc as [k [<- Hk]].
    apply in_seq in Hk. rewrite Hx, Hy in Hk.
    assert (Hr : 0 <= Z.of_nat k < len x + len y - 1) by (unfold len in *; lia).
    assert (G : (1 <= correlate_at (np_ones_like x) (np_ones_like y) (Z.of_nat k))%Q).
    { rewrite (correlate_at_ones x y Hr). change 1%Q with (inject_Z 1).
      rewrite <- Zle_Qle. lia. }
    split; [exact G |].
    intro Z0. rewrite Z0 in G. revert G. apply Qlt_not_le. reflexivity.
Qed.

(** Envelopes of 3 and 2 frames: the counts are 1, 2, 2, 1. *)
Lemma overlap_count_example :
  exists corr_denom : list Q,
    correlate (np_ones_like [1; 2; 3]%Q) (np_ones_like [4; 5]%Q) = Ok corr_denom /\
    len corr_denom = len [1; 2; 3]%Q + len [4; 5]%Q - 1 /\
    Forall (fun c => (1 <= c)%Q /\ ~ (c == 0)%Q) corr_denom.
Proof.
  apply (@overlap_count_at_least_one [1; 2; 3]%Q [4; 5]%Q); discriminate.
Defined.

End Overlap.

(** * The minimum-overlap constraint (shign.py, lines 52-55) *)

Module MinOverlap.

Section SliceAssign.
Context {A : Type}.

Lemma slice_index_bounds (n i : Z) : 0 <= n -> 0 <= slice_index n i <= n.
Proof. unfold slice_index. destruct (i <? 0) eqn:E; lia. Qed.

Lemma slice_start_bounds (l : list A) (lo : option Z) :
  0 <= slice_start l lo <= len l.
Proof.
  pose proof (Overlap.len_nonneg l).
  destruct lo; cbn [slice_start]; [apply slice_index_bounds |]; lia.
Qed.

Lemma slice_stop_bounds (l : list A) (hi : option Z) :
  0 <= slice_stop l hi <= len l.
Proof.
  pose proof (Overlap.len_nonneg l).
  destruct hi; cbn [slice_stop]; [apply slice_index_bounds |]; lia.
Qed.

Lemma length_slice_assign (l : list A) (lo hi : option Z) (v : A) :
  List.length (py_slice_assign l lo hi v) = List.length l.
Proof.
  unfold py_slice_assign.
  pose proof (slice_start_bounds l lo) as Hs.
  pose proof (slice_stop_bounds l hi) as He.
  unfold len in *.
  rewrite !length_app, length_firstn, repeat_length, length_skipn. lia.
Qed.

(** Entry [i] after [l[lo:hi] = v]. *)
Lemma nth_slice_assign (l : list A) (lo hi : option Z) (v d : A) (i : nat) :
  (i < List.length l)%nat ->
  nth i (py_slice_assign l lo hi v) d
  = if (slice_start l lo <=? Z.of_nat i) && (Z.of_nat i <? slice_stop l hi)
    then v else nth i l d.
Proof.
  intro Hi. unfold py_slice_assign.
  pose proof (slice_start_bounds l lo) as Hs.
  pose proof (slice_stop_bounds l hi) as He.
  set (s := slice_start l lo) in *. set (e := slice_stop l hi) in *.
  unfold len in *.
  assert (Lf : List.length (firstn (Z.to_nat s) l) = Z.to_nat s)
    by (rewrite length_firstn; lia).
  destruct (s <=? Z.of_nat i) eqn:E1; cbn [andb].
  - apply Z.leb_le in E1. rewrite app_nth2 by lia. rewrite Lf.
    destruct (Z.of_nat i <? e) eqn:E2.
    + apply Z.ltb_lt in E2. rewrite app_nth1 by (rewrite repeat_length; lia).
      apply nth_repeat_lt. lia.
    + apply Z.ltb_ge in E2. rewrite app_nth2 by (rewrite repeat_length; lia).
      rewrite repeat_length, nth_skipn. f_equal. lia.
  - apply Z.leb_gt in E1. rewrite app_nth1 by lia.
    rewrite nth_firstn.
    replace (i <? Z.to_nat s)%nat with true by (symmetry; apply Nat.ltb_lt; lia).
    reflexivity.
Qed.
End SliceAssign.

Section Constraint.
Context {F : Type} `{PyFloat F}.

Lemma len_slice_assign (l : list F) (lo hi : option Z) (v : F) :
  len (py_slice_assign l lo hi v) = len l.
Proof. unfold len. rewrite length_slice_assign. reflexivity. Qed.

(** Where the frame count is at least one, the constraint does what
    its two assignments are meant to do: it zeroes the first [n] and the
    last [n] entries and leaves the others as they were. *)
Lemma constrain_min_overlap_ends (corr : list F) (min_overlap_sec hop_length_ms : F)
    (n : Z) :
  feqb min_overlap_sec (of_int 0) = false ->
  sec_to_frames min_overlap_sec hop_length_ms = Ok n ->
  1 <= n ->
  exists corr' : list F,
    constrain_min_overlap corr min_overlap_sec hop_length_ms = Ok corr' /\
    List.length corr' = List.length corr /\
    forall (i : nat) (d : F), (i < List.length corr)%nat ->
      nth i corr' d
      = if (Z.of_nat i <? n) || (len corr - n <=? Z.of_nat i)
        then of_int 0 else nth i corr d.
Proof.
  intros Hne Hn Hpos. unfold constrain_min_overlap.
  rewrite Hne, Hn. cbn [negb bind]. eexists. split; [reflexivity |].
  split; [rewrite !length_slice_assign; reflexivity |].
  intros i d Hi.
  rewrite nth_slice_assign by (rewrite length_slice_assign; exact Hi).
  rewrite nth_slice_assign by exact Hi.
  cbn [slice_start slice_stop]. rewrite len_slice_assign.
  unfold slice_index.
  replace (n <? 0) with false by (symmetry; apply Z.ltb_ge; lia).
  replace (- n <? 0) with true by (symmetry; apply Z.ltb_lt; lia).
  assert (Hl : Z.of_nat i < len corr) by (unfold len; lia).
  repeat match goal with
         | |- context [?a <=? ?b] => destruct (Z.leb_spec a b)
         | |- context [?a <? ?b] => destruct (Z.ltb_spec a b)
         end; cbn [andb orb]; try reflexivity; lia.
Qed.

(** With a frame count of 0, [corr[:0] = 0] touches nothing and
    [corr[-0:] = 0] is [corr[0:] = 0]: every entry is zeroed. *)
Lemma constrain_min_overlap_zero_frames (corr : list F)
    (min_overlap_sec hop_length_ms : F) :
  feqb min_overlap_sec (of_int 0) = false ->
  sec_to_frames min_overlap_sec hop_length_ms = Ok 0 ->
  constrain_min_overlap corr min_overlap_sec hop_length_ms
  = Ok (repeat (of_int 0) (List.length corr)).
Proof.
  intros Hne Hn. unfold constrain_min_overlap.
  rewrite Hne, Hn. cbn [negb bind]. f_equal.
  assert (E1 : py_slice_assign corr None (Some 0) (of_int 0) = corr).
  { unfold py_slice_assign. cbn [slice_start slice_stop]. unfold slice_index.
    cbn [Z.ltb Z.compare]. rewrite Z.min_l by apply Overlap.len_nonneg.
    cbn. reflexivity. }
  rewrite E1. unfold py_slice_assign. cbn [slice_start slice_stop Z.opp].
  unfold slice_index. cbn [Z.ltb Z.compare].
  rewrite Z.min_l by apply Overlap.len_nonneg.
  rewrite Z.sub_0_r. unfold len. rewrite Nat2Z.id. cbn [Z.to_nat firstn app Nat.add].
  rewrite skipn_all. apply app_nil_r.
Qed.
End Constraint.

(** C2 fails on the code at [n = 0]: a [min_overlap_sec] of 5 ms with
    the 10 ms hop gives [n = int(0.5) = 0], and the constraint zeroes the
    whole normalized correlation instead of leaving every entry
    unchanged, in exact and in binary64 arithmetic alike. *)
Theorem min_overlap_below_one_hop_zeroes_everything :
  (forall corr : list Q,
     constrain_min_overlap corr (5 # 1000)%Q 10%Q
     = Ok (repeat 0%Q (List.length corr))) /\
  (forall corr : list float,
     constrain_min_overlap corr (fdiv (float_of_Z 5) (float_of_Z 1000)) (float_of_Z 10)
     = Ok (repeat (float_of_Z 0) (List.length corr))) /\
  constrain_min_overlap [3; 1; 4; 1; 5]%Q (5 # 1000)%Q 10%Q = Ok [0; 0; 0; 0; 0]%Q.
Proof.
  split; [| split].
  - intro corr. change 0%Q with (@of_int Q _ 0).
    apply constrain_min_overlap_zero_frames; reflexivity.
  - intro corr. change (float_of_Z 0) with (@of_int float _ 0).
    apply constrain_min_overlap_zero_frames; vm_compute; reflexivity.
  - vm_compute. reflexivity.
Qed.

(** The same array under the default of one second (100 frames of 10 ms)
    scaled down to 20 ms, [n = 2]: the ends go, the middle stays. *)
Lemma min_overlap_two_frames_example :
  constrain_min_overlap [3; 1; 4; 1; 5]%Q (20 # 1000)%Q 10%Q = Ok [0; 0; 4; 0; 0]%Q.
Proof. vm_compute. reflexivity. Qed.

End MinOverlap.

(** * The alignment transforms (shign.py, lines 111-267) *)

Module Transforms.
Import QFacts.

(** ** End-of-waveform displacement in exact arithmetic *)

Lemma inject_Z_pos (z : Z) : 0 < z -> (0 < inject_Z z)%Q.
Proof. intro Hz. change 0%Q with (inject_Z 0). rewrite <- Zlt_Qlt. exact Hz. Qed.

Lemma inject_Z_nonzero (z : Z) : 0 < z -> ~ (inject_Z z == 0)%Q.
Proof.
  intros Hz E. pose proof (inject_Z_pos Hz) as P. rewrite E in P.
  exact (Qlt_irrefl 0 P).
Qed.

Lemma Qtrunc_close (y : Q) : (Qabs (inject_Z (Qtrunc y) - y) < 1)%Q.
Proof.
  apply Qabs_Qlt_condition.
  destruct (Qlt_le_dec y 0) as [L | L].
  - assert (Hn : (0 <= - y)%Q) by lra.
    destruct (Qtrunc_bounds_nonneg Hn) as [B1 B2].
    rewrite Qtrunc_opp in B1, B2. rewrite inject_Z_plus in B2.
    rewrite inject_Z_opp in B1, B2. change (inject_Z 1) with 1%Q in B2.
    split; lra.
  - destruct (Qtrunc_bounds_nonneg L) as [B1 B2].
    rewrite inject_Z_plus in B2. change (inject_Z 1) with 1%Q in B2.
    split; lra.
Qed.

(** The displacement between the ends, in samples of the second
    waveform, before truncation. *)
Lemma shift_end_samples_value (la lb sr_a sr_b : Z) :
  0 < sr_a -> 0 < sr_b ->
  (fsub (samples_to_ms la sr_a) (samples_to_ms lb sr_b) / 1000 * inject_Z sr_b
   == inject_Z la * inject_Z sr_b / inject_Z sr_a - inject_Z lb)%Q.
Proof.
  intros Ha Hb. unfold samples_to_ms, samples_to_sec. cbn [fsub fmul fdiv of_int Q_float].
  pose proof (inject_Z_nonzero Ha). pose proof (inject_Z_nonzero Hb).
  field. split; assumption.
Qed.

Lemma shift_end_samples_equal_rate (la lb sr : Z) :
  0 < sr ->
  (fsub (samples_to_ms la sr) (samples_to_ms lb sr) / 1000 * inject_Z sr
   == inject_Z (la - lb))%Q.
Proof.
  intro Hs. rewrite shift_end_samples_value by exact Hs.
  unfold Z.sub. rewrite inject_Z_plus, inject_Z_opp.
  pose proof (inject_Z_nonzero Hs). field. assumption.
Qed.

Lemma scaled_nonneg (q : Q) (sr : Z) :
  0 < sr -> (0 <= q)%Q -> 0 <= Qtrunc (q / 1000 * inject_Z sr).
Proof.
  intros Hs Hq. apply Qtrunc_sign_nonneg.
  apply Qmult_le_0_compat; [| apply Qlt_le_weak, inject_Z_pos, Hs].
  apply Qle_shift_div_l; [reflexivity | lra].
Qed.

Lemma py_max_0_nonneg (q : Q) : (0 <= py_max (of_int 0) q)%Q.
Proof.
  unfold py_max. cbn [fltb of_int Q_float].
  destruct (Qltb (inject_Z 0) q) eqn:E.
  - apply Qltb_lt in E. apply Qlt_le_weak. exact E.
  - apply Qle_refl.
Qed.

Lemma py_min_0_nonpos (q : Q) : (0 <= fneg (py_min (of_int 0) q))%Q.
Proof.
  unfold py_min. cbn [fltb fneg of_int Q_float].
  destruct (Qltb q (inject_Z 0)) eqn:E.
  - apply Qltb_lt in E. change (inject_Z 0) with 0%Q in E. lra.
  - cbn. apply Qle_refl.
Qed.

Lemma scale_nonpos (d c : Q) : (0 < c -> d <= 0 -> d * c <= 0)%Q.
Proof.
  intros Hc Hd.
  pose proof (Qmult_le_compat_r d 0 c Hd (Qlt_le_weak _ _ Hc)) as M.
  rewrite Qmult_0_l in M. exact M.
Qed.

Lemma scale_neg (d c : Q) : (0 < c -> d < 0 -> d * c < 0)%Q.
Proof.
  intros Hc Hd.
  pose proof (Qmult_lt_compat_r d 0 c Hc Hd) as M.
  rewrite Qmult_0_l in M. exact M.
Qed.

Lemma Qtrunc_zero (q : Q) : (q == 0)%Q -> Qtrunc q = 0.
Proof. intro E. rewrite (Qtrunc_comp E). reflexivity. Qed.

(** With one sample rate on both sides, the end displacement is the
    difference of the lengths, handed to whichever waveform is behind. *)
Lemma shift_end_equal_rate (la lb sr : Z) :
  0 < sr ->
  ms_to_samples (F := Q)
    (py_max (of_int 0) (fsub (samples_to_ms la sr) (samples_to_ms lb sr))) sr
    = Ok (Z.max 0 (la - lb)) /\
  ms_to_samples (F := Q)
    (fneg (py_min (of_int 0) (fsub (samples_to_ms la sr) (samples_to_ms lb sr)))) sr
    = Ok (Z.max 0 (lb - la)).
Proof.
  intro Hs. rewrite !ms_to_samples_Q.
  pose proof (shift_end_samples_equal_rate la lb Hs) as E.
  set (x := fsub (samples_to_ms la sr) (samples_to_ms lb sr)) in *.
  pose proof (inject_Z_pos Hs) as Ps.
  assert (Sx : (x == inject_Z (la - lb) * (1000 / inject_Z sr))%Q).
  { rewrite <- E. field. apply inject_Z_nonzero, Hs. }
  assert (Pc : (0 < 1000 / inject_Z sr)%Q).
  { apply Qlt_shift_div_l; [exact Ps | lra]. }
  unfold py_max, py_min. cbn [fltb fneg of_int Q_float].
  change (inject_Z 0) with 0%Q.
  set (c := (1000 / inject_Z sr)%Q) in *.
  split.
  - destruct (Qltb 0 x) eqn:C.
    + apply Qltb_lt in C. rewrite (Qtrunc_comp E), Qtrunc_inject_Z.
      f_equal. destruct (Z_lt_le_dec 0 (la - lb)) as [D | D]; [lia |].
      exfalso. assert (inject_Z (la - lb) <= 0)%Q
        by (change 0%Q with (inject_Z 0); rewrite <- Zle_Qle; exact D).
      assert (inject_Z (la - lb) * c <= 0)%Q by (apply scale_nonpos; assumption).
      lra.
    + apply Qltb_ge in C. f_equal.
      destruct (Z_lt_le_dec 0 (la - lb)) as [D | D];
        [| rewrite Z.max_l by lia; apply Qtrunc_zero; field; lra].
      exfalso. assert (0 < inject_Z (la - lb))%Q by (apply inject_Z_pos, D).
      assert (0 < inject_Z (la - lb) * c)%Q by (apply Qmult_lt_0_compat; assumption).
      lra.
  - destruct (Qltb x 0) eqn:C.
    + apply Qltb_lt in C.
      assert (E' : (- x / 1000 * inject_Z sr == inject_Z (lb - la))%Q).
      { setoid_replace (- x / 1000 * inject_Z sr)%Q
          with (- (x / 1000 * inject_Z sr))%Q by field.
        rewrite E. replace (lb - la) with (- (la - lb)) by lia.
        rewrite inject_Z_opp. reflexivity. }
      rewrite (Qtrunc_comp E'), Qtrunc_inject_Z.
      f_equal. destruct (Z_lt_le_dec 0 (lb - la)) as [D | D]; [lia |].
      exfalso. assert (0 <= inject_Z (la - lb))%Q
        by (change 0%Q with (inject_Z 0); rewrite <- Zle_Qle; lia).
      assert (0 <= inject_Z (la - lb) * c)%Q
        by (apply Qmult_le_0_compat; [assumption | apply Qlt_le_weak; assumption]).
      lra.
    + apply Qltb_ge in C. f_equal.
      destruct (Z_lt_le_dec 0 (lb - la)) as [D | D];
        [| rewrite Z.max_l by lia; apply Qtrunc_zero; field; lra].
      exfalso. assert (inject_Z (la - lb) < 0)%Q
        by (change 0%Q with (inject_Z 0); rewrite <- Zlt_Qlt; lia).
      assert (inject_Z (la - lb) * c < 0)%Q by (apply scale_neg; assumption).
      lra.
Qed.

Lemma len_app {A} (l1 l2 : list A) : len (l1 ++ l2) = len l1 + len l2.
Proof. unfold len. rewrite length_app. lia. Qed.

Lemma len_repeat {A} (v : A) (k : Z) : 0 <= k -> len (repeat v (Z.to_nat k)) = k.
Proof. intro Hk. unfold len. rewrite repeat_length. lia. Qed.

Lemma len_slice {A} (l : list A) (lo hi : option Z) :
  len (py_slice l lo hi) = Z.max 0 (slice_stop l hi - slice_start l lo).
Proof.
  unfold py_slice.
  pose proof (MinOverlap.slice_start_bounds l lo).
  pose proof (MinOverlap.slice_stop_bounds l hi).
  unfold len in *. rewrite length_firstn, length_skipn. lia.
Qed.

Section Shape.
Context {F : Type} `{PyFloat F}.

Lemma np_zeros_ok (k : Z) :
  0 <= k -> np_zeros k = Ok (repeat (of_int 0) (Z.to_nat k)).
Proof.
  intro Hk. unfold np_zeros.
  replace (k <? 0) with false by (symmetry; apply Z.ltb_ge; exact Hk).
  reflexivity.
Qed.

Lemma np_zeros_inv (k : Z) (z : list F) :
  np_zeros k = Ok z -> z = repeat (of_int 0) (Z.to_nat k).
Proof.
  unfold np_zeros. destruct (k <? 0); intro E; inversion E. reflexivity.
Qed.

(** Whatever the arithmetic, [pad_both] only adds silence: each output
    is its input with zeros before and after, so no output is shorter
    than its input. *)
Lemma pad_both_adds_only_silence (audio_a audio_b : list F) (sr_a sr_b : Z)
    (shift_ms : F) (out_a out_b : list F) :
  pad_both audio_a audio_b sr_a sr_b shift_ms = Ok (out_a, out_b) ->
  exists sa ea sb eb : nat,
    out_a = repeat (of_int 0) sa ++ audio_a ++ repeat (of_int 0) ea /\
    out_b = repeat (of_int 0) sb ++ audio_b ++ repeat (of_int 0) eb.
Proof.
  unfold pad_both. cbv zeta.
  repeat match goal with
         | |- bind ?m _ = Ok _ -> _ =>
             let E := fresh "E" in
             destruct m eqn:E; cbn [bind]; [| discriminate]
         end.
  intro R. inversion R; subst.
  repeat match goal with
         | E : np_zeros _ = Ok _ |- _ => apply np_zeros_inv in E; subst
         end.
  do 4 eexists. rewrite <- !app_assoc. split; reflexivity.
Qed.

Lemma slice_is_block {A} (l : list A) (lo hi : option Z) :
  exists before after : list A, l = before ++ py_slice l lo hi ++ after.
Proof.
  unfold py_slice.
  exists (firstn (Z.to_nat (slice_start l lo)) l).
  exists (skipn (Z.to_nat (slice_stop l hi - slice_start l lo))
                (skipn (Z.to_nat (slice_start l lo)) l)).
  rewrite firstn_skipn, firstn_skipn. reflexivity.
Qed.

(** Whatever the arithmetic, [crop_both] only removes leading and
    trailing samples: each output is a contiguous block of its input. *)
Lemma crop_both_keeps_a_block (audio_a audio_b : list F) (sr_a sr_b : Z)
    (shift_ms : F) (out_a out_b : list F) :
  crop_both audio_a audio_b sr_a sr_b shift_ms = Ok (out_a, out_b) ->
  (exists before after, audio_a = before ++ out_a ++ after) /\
  (exists before after, audio_b = before ++ out_b ++ after).
Proof.
  unfold crop_both. cbv zeta.
  repeat match goal with
         | |- bind ?m _ = Ok _ -> _ =>
             let E := fresh "E" in
             destruct m eqn:E; cbn [bind]; [| discriminate]
         end.
  intro R. inversion R; subst; clear R.
  assert (Nest : forall (l : list F) lo k,
             exists before after,
               l = before ++ (if 0 <? k
                              then py_slice (py_slice l lo None) None (Some (- k))
                              else py_slice l lo None) ++ after).
  { intros l lo k.
    destruct (slice_is_block l lo None) as [pre1 [post1 P1]].
    destruct (0 <? k).
    - destruct (slice_is_block (py_slice l lo None) None (Some (- k)))
        as [pre2 [post2 P2]].
      exists (pre1 ++ pre2), (post2 ++ post1).
      rewrite P1 at 1. rewrite P2 at 1. rewrite <- !app_assoc. reflexivity.
    - exists pre1, post1. exact P1. }
  split; apply Nest.
Qed.
End Shape.

(** ** Equal sample rates, exact arithmetic *)

(** If the conversions were exact, [pad_both] at one sample rate would
    return two waveforms of one length. *)
Lemma pad_both_exact_equal_length (audio_a audio_b : list Q) (sr : Z) (shift_ms : Q) :
  0 < sr ->
  exists out_a out_b : list Q,
    pad_both audio_a audio_b sr sr shift_ms = Ok (out_a, out_b) /\
    len out_a = len out_b /\
    len audio_a <= len out_a /\ len audio_b <= len out_b.
Proof.
  intro Hs. unfold pad_both. cbv zeta.
  rewrite ms_to_samples_Q. cbn [bind]. rewrite ms_to_samples_Q. cbn [bind].
  set (sa := Qtrunc (fneg (py_min (of_int 0) shift_ms) / 1000 * inject_Z sr)).
  set (sb := Qtrunc (py_max (of_int 0) shift_ms / 1000 * inject_Z sr)).
  assert (Pa : 0 <= sa) by (apply scaled_nonneg; [exact Hs | apply py_min_0_nonpos]).
  assert (Pb : 0 <= sb) by (apply scaled_nonneg; [exact Hs | apply py_max_0_nonneg]).
  rewrite (np_zeros_ok Pa). cbn [bind]. rewrite (np_zeros_ok Pb). cbn [bind].
  set (a1 := repeat (of_int 0) (Z.to_nat sa) ++ audio_a).
  set (b1 := repeat (of_int 0) (Z.to_nat sb) ++ audio_b).
  destruct (shift_end_equal_rate (len a1) (len b1) Hs) as [E1 E2].
  rewrite E2. cbn [bind]. rewrite E1. cbn [bind].
  rewrite (@np_zeros_ok Q _ (Z.max 0 (len b1 - len a1))) by lia. cbn [bind].
  rewrite (@np_zeros_ok Q _ (Z.max 0 (len a1 - len b1))) by lia. cbn [bind].
  eexists. eexists. split; [reflexivity |].
  assert (La : len a1 = sa + len audio_a)
    by (unfold a1; rewrite len_app, len_repeat by exact Pa; reflexivity).
  assert (Lb : len b1 = sb + len audio_b)
    by (unfold b1; rewrite len_app, len_repeat by exact Pb; reflexivity).
  rewrite !len_app, !len_repeat by lia. lia.
Qed.

(** If the conversions were exact, [crop_both] at one sample rate would
    return two waveforms of one length, neither longer than its input. *)
Lemma crop_both_exact_equal_length (audio_a audio_b : list Q) (sr : Z) (shift_ms : Q) :
  0 < sr ->
  exists out_a out_b : list Q,
    crop_both audio_a audio_b sr sr shift_ms = Ok (out_a, out_b) /\
    len out_a = len out_b /\
    len out_a <= len audio_a /\ len out_b <= len audio_b.
Proof.
  intro Hs. unfold crop_both. cbv zeta.
  rewrite ms_to_samples_Q. cbn [bind]. rewrite ms_to_samples_Q. cbn [bind].
  set (sa := Qtrunc (py_max (of_int 0) shift_ms / 1000 * inject_Z sr)).
  set (sb := Qtrunc (fneg (py_min (of_int 0) shift_ms) / 1000 * inject_Z sr)).
  assert (Pa : 0 <= sa) by (apply scaled_nonneg; [exact Hs | apply py_max_0_nonneg]).
  assert (Pb : 0 <= sb) by (apply scaled_nonneg; [exact Hs | apply py_min_0_nonpos]).
  set (a1 := py_slice audio_a (Some sa) None).
  set (b1 := py_slice audio_b (Some sb) None).
  destruct (shift_end_equal_rate (len a1) (len b1) Hs) as [E1 E2].
  rewrite E1. cbn [bind]. rewrite E2. cbn [bind].
  eexists. eexists. split; [reflexivity |].
  pose proof (Overlap.len_nonneg audio_a) as Na.
  pose proof (Overlap.len_nonneg audio_b) as Nb.
  assert (La : len a1 = Z.max 0 (len audio_a - sa)).
  { unfold a1. rewrite len_slice. cbn [slice_start slice_stop]. unfold slice_index.
    replace (sa <? 0) with false by (symmetry; apply Z.ltb_ge; exact Pa). lia. }
  assert (Lb : len b1 = Z.max 0 (len audio_b - sb)).
  { unfold b1. rewrite len_slice. cbn [slice_start slice_stop]. unfold slice_index.
    replace (sb <? 0) with false by (symmetry; apply Z.ltb_ge; exact Pb). lia. }
  assert (Cut : forall (l : list Q) (k : Z), 0 < k ->
            len (py_slice l None (Some (- k))) = Z.max 0 (len l - k)).
  { intros l k Hk. rewrite len_slice. cbn [slice_start slice_stop].
    unfold slice_index.
    replace (- k <? 0) with true by (symmetry; apply Z.ltb_lt; lia). lia. }
  destruct (0 <? Z.max 0 (len a1 - len b1)) eqn:Ca;
    destruct (0 <? Z.max 0 (len b1 - len a1)) eqn:Cb;
    try (apply Z.ltb_lt in Ca); try (apply Z.ltb_ge in Ca);
    try (apply Z.ltb_lt in Cb); try (apply Z.ltb_ge in Cb);
    rewrite ?Cut by assumption; lia.
Qed.

(** ** Only the second waveform is changed *)

(** In exact arithmetic the second output misses the duration of the
    first by less than one sample, and at equal rates by nothing. *)
Lemma pad_and_crop_exact (audio_a audio_b : list Q) (sr_a sr_b : Z)
    (shift_ms : Q) :
  0 < sr_a -> 0 < sr_b ->
  exists out_b : list Q,
    pad_and_crop_one_to_match_other audio_a audio_b sr_a sr_b shift_ms
      = Ok (audio_a, out_b) /\
    (Qabs (inject_Z (len out_b) / inject_Z sr_b - inject_Z (len audio_a) / inject_Z sr_a)
       < 1 / inject_Z sr_b)%Q /\
    (sr_a = sr_b -> len out_b = len audio_a).
Proof.
  intros Ha Hb. unfold pad_and_crop_one_to_match_other. cbv zeta.
  rewrite ms_to_samples_Q. cbn [bind].
  set (s := Qtrunc (shift_ms / 1000 * inject_Z sr_b)).
  assert (Start : exists b1 : list Q,
             (if s <? 0 then Ok (py_slice audio_b (Some (Z.abs s)) None)
              else z <- np_zeros s;; Ok (z ++ audio_b)) = Ok b1).
  { destruct (s <? 0) eqn:C.
    - eexists. reflexivity.
    - apply Z.ltb_ge in C. rewrite (np_zeros_ok C). cbn [bind].
      eexists. reflexivity. }
  destruct Start as [b1 ->]. cbn [bind].
  rewrite ms_to_samples_Q. cbn [bind].
  set (y := (fsub (samples_to_ms (len audio_a) sr_a) (samples_to_ms (len b1) sr_b)
             / 1000 * inject_Z sr_b)%Q).
  set (X := (inject_Z (len audio_a) * inject_Z sr_b / inject_Z sr_a)%Q).
  assert (Ey : (y == X - inject_Z (len b1))%Q)
    by (apply shift_end_samples_value; assumption).
  pose proof (inject_Z_pos Ha) as Pa. pose proof (inject_Z_pos Hb) as Pb.
  pose proof (inject_Z_nonzero Ha) as Za. pose proof (inject_Z_nonzero Hb) as Zb.
  assert (PX : (0 <= X)%Q).
  { unfold X. apply Qle_shift_div_l; [exact Pa |].
    rewrite Qmult_0_l. apply Qmult_le_0_compat; [| apply Qlt_le_weak, Pb].
    change 0%Q with (inject_Z 0). rewrite <- Zle_Qle. apply Overlap.len_nonneg. }
  pose proof (Qtrunc_close y) as Cl. apply Qabs_Qlt_condition in Cl.
  set (e := Qtrunc y) in *.
  assert (Low : 0 <= len b1 + e).
  { assert (inject_Z (- len b1 - 1) < inject_Z e)%Q.
    { unfold Z.sub. rewrite !inject_Z_plus, !inject_Z_opp.
      change (inject_Z 1) with 1%Q. lra. }
    rewrite <- Zlt_Qlt in H. lia. }
  assert (End : exists out_b : list Q,
             (if e <? 0 then Ok (py_slice b1 None (Some (- Z.abs e)))
              else z <- np_zeros e;; Ok (b1 ++ z)) = Ok out_b /\
             len out_b = len b1 + e).
  { destruct (e <? 0) eqn:C.
    - apply Z.ltb_lt in C. eexists. split; [reflexivity |].
      rewrite len_slice. cbn [slice_start slice_stop]. unfold slice_index.
      replace (- Z.abs e <? 0) with true by (symmetry; apply Z.ltb_lt; lia). lia.
    - apply Z.ltb_ge in C. rewrite (np_zeros_ok C). cbn [bind].
      eexists. split; [reflexivity |].
      rewrite len_app, len_repeat by exact C. reflexivity. }
  destruct End as [out_b [-> Lout]]. cbn [bind].
  exists out_b. split; [reflexivity |].
  assert (Near : (Qabs (inject_Z (len out_b) - X) < 1)%Q).
  { apply Qabs_Qlt_condition. rewrite Lout, inject_Z_plus. lra. }
  split.
  - setoid_replace (inject_Z (len out_b) / inject_Z sr_b
                    - inject_Z (len audio_a) / inject_Z sr_a)%Q
      with ((inject_Z (len out_b) - X) * (1 / inject_Z sr_b))%Q
      by (unfold X; field; split; assumption).
    rewrite Qabs_Qmult.
    assert (Pinv : (0 < 1 / inject_Z sr_b)%Q)
      by (apply Qlt_shift_div_l; [exact Pb | lra]).
    rewrite (Qabs_pos (1 / inject_Z sr_b)) by (apply Qlt_le_weak, Pinv).
    setoid_replace (1 / inject_Z sr_b)%Q with (1 * (1 / inject_Z sr_b))%Q at 2
      by ring.
    apply Qmult_lt_compat_r; assumption.
  - intros <-.
    assert (EX : (X == inject_Z (len audio_a))%Q) by (unfold X; field; assumption).
    rewrite EX in Near. apply Qabs_Qlt_condition in Near.
    assert (inject_Z (len audio_a - 1) < inject_Z (len out_b))%Q.
    { unfold Z.sub. rewrite inject_Z_plus, inject_Z_opp.
      change (inject_Z 1) with 1%Q. lra. }
    assert (inject_Z (len out_b) < inject_Z (len audio_a + 1))%Q.
    { rewrite inject_Z_plus. change (inject_Z 1) with 1%Q. lra. }
    rewrite <- Zlt_Qlt in *. lia.
Qed.

(** With the conversions in exact arithmetic and positive sample rates,
    the second output is within one sample (of its own rate) of the
    duration of the first. *)
Theorem pad_and_crop_matches_first (audio_a audio_b : list Q) (sr_a sr_b : Z)
    (shift_ms : Q) :
  0 < sr_a -> 0 < sr_b ->
  exists out_b : list Q,
    pad_and_crop_one_to_match_other audio_a audio_b sr_a sr_b shift_ms
      = Ok (audio_a, out_b) /\
    (Qabs (inject_Z (len out_b) / inject_Z sr_b - inject_Z (len audio_a) / inject_Z sr_a)
       <= 1 / inject_Z sr_b)%Q /\
    (sr_a = sr_b -> Z.abs (len out_b - len audio_a) <= 1).
Proof.
  intros Ha Hb.
  destruct (pad_and_crop_exact audio_a audio_b shift_ms Ha Hb) as [out_b [E [D L]]].
  exists out_b. split; [exact E |]. split.
  - apply Qlt_le_weak. exact D.
  - intro R. rewrite (L R). lia.
Qed.

(** Two seconds at 8 Hz against three seconds at 12 Hz, the second one
    400 ms late. *)
Lemma pad_and_crop_matches_first_example :
  exists out_b : list Q,
    pad_and_crop_one_to_match_other (steady 16) (steady 36) 8 12 (400 # 1)%Q
      = Ok (steady 16, out_b) /\
    (Qabs (inject_Z (len out_b) / inject_Z 12 - inject_Z (len (steady 16)) / inject_Z 8)
       <= 1 / inject_Z 12)%Q /\
    (8 = 12 -> Z.abs (len out_b - len (steady 16)) <= 1).
Proof.
  apply (@pad_and_crop_matches_first (steady 16) (steady 36) 8 12 (400 # 1)%Q); lia.
Defined.

(** ** Equal sample rates, binary64 arithmetic *)

(** C3 fails on the code: 115 and 100 samples at 44.1 kHz, shift 0. The
    end displacement [1000 * (115 / 44100) - 1000 * (100 / 44100)] comes
    back from [ms / 1000 * 44100] just below 15, [int] truncates it to 14,
    and the padded second waveform is one sample short of the first. *)
Theorem pad_both_binary64_lengths_differ :
  exists out_a out_b : list float,
    pad_both (steady64 115) (steady64 100) 44100 44100 (float_of_Z 0)
      = Ok (out_a, out_b) /\
    len out_a = 115 /\ len out_b = 114.
Proof.
  eexists. eexists. split; [vm_compute; reflexivity |].
  split; reflexivity.
Qed.

(** C6 fails on the code, on the same input and for the same reason: 14
    samples instead of 15 are cut from the end of the first waveform, which
    stays one sample longer than the second. *)
Theorem crop_both_binary64_lengths_differ :
  exists out_a out_b : list float,
    crop_both (steady64 115) (steady64 100) 44100 44100 (float_of_Z 0)
      = Ok (out_a, out_b) /\
    len out_a = 101 /\ len out_b = 100.
Proof.
  eexists. eexists. split; [vm_compute; reflexivity |].
  split; reflexivity.
Qed.

(** On that input [pad_and_crop_one_to_match_other] leaves the first
    waveform alone and brings the second to 114 samples, one sample from
    the 115 of the first. *)
Lemma pad_and_crop_binary64_example :
  exists out_b : list float,
    pad_and_crop_one_to_match_other (steady64 115) (steady64 100) 44100 44100
      (float_of_Z 0) = Ok (steady64 115, out_b) /\
    len out_b = 114.
Proof.
  eexists. split; [vm_compute; reflexivity |]. reflexivity.
Qed.

(** The truncated conversion behind all three: the difference of 15
    samples is converted to 14. *)
Lemma shift_end_binary64_truncated :
  ms_to_samples (fsub (samples_to_ms (F := float) 115 44100)
                      (samples_to_ms (F := float) 100 44100)) 44100 = Ok 14.
Proof. vm_compute. reflexivity. Qed.

End Transforms.

(** * A waveform against itself (shign.py, lines 44-66) *)

Module SelfShift.

Lemma round_half_odd (n : Z) :
  round_half (2 * n - 1) = n - 1 \/ round_half (2 * n - 1) = n.
Proof.
  unfold round_half.
  assert (E : Z.even (2 * n - 1) = false).
  { replace (2 * n - 1) with (1 + 2 * (n - 1)) by lia.
    rewrite Z.even_add_mul_2. reflexivity. }
  assert (D : (2 * n - 1) / 2 = n - 1).
  { symmetry. apply (Z.div_unique (2 * n - 1) 2 (n - 1) 1); lia. }
  rewrite E, D. destruct (Z.even (n - 1)); [left | right]; lia.
Qed.

Section Half.
Context {F : Type} `{PyFloat F}.

Lemma correlate_length (x y out : list F) :
  correlate x y = Ok out ->
  List.length out = (List.length x + List.length y - 1)%nat.
Proof.
  unfold correlate. destruct x, y; intro E; inversion E.
  rewrite length_map, length_seq. reflexivity.
Qed.

Lemma constrain_min_overlap_length (corr corr' : list F) (m h : F) :
  constrain_min_overlap corr m h = Ok corr' ->
  List.length corr' = List.length corr.
Proof.
  unfold constrain_min_overlap. destruct (negb (feqb m (of_int 0))).
  - destruct (sec_to_frames m h); cbn [bind]; intro E; inversion E.
    rewrite !MinOverlap.length_slice_assign. reflexivity.
  - intro E; inversion E. reflexivity.
Qed.

(** [half_idx] is taken from the length of the correlation, which is
    one less than the two envelope lengths together. *)
Lemma constrained_corr_half (rms_a rms_b corr : list F) (hop m s : F) (half : Z) :
  constrained_corr rms_a rms_b hop m s = Ok (corr, half) ->
  half = round_half (len rms_a + len rms_b - 1) /\ rms_a <> [] /\ rms_b <> [].
Proof.
  unfold constrained_corr.
  destruct (correlate rms_a rms_b) as [num | e] eqn:En; cbn [bind];
    [| discriminate].
  destruct (correlate (np_ones_like rms_a) (np_ones_like rms_b))
    as [den | e] eqn:Ed; cbn [bind]; [| discriminate].
  destruct (constrain_min_overlap (np_divide num den) m hop) as [c1 | e];
    cbn [bind]; [| discriminate].
  destruct (constrain_max_shift c1 (round_half (len (np_divide num den))) s hop)
    as [c2 | e]; cbn [bind]; [| discriminate].
  intro E; inversion E; subst. clear E.
  apply correlate_length in Ed. pose proof (correlate_length _ _ En) as Ln.
  unfold np_ones_like in Ed. rewrite !length_map in Ed.
  assert (Na : rms_a <> []) by (intro; subst; destruct rms_b; discriminate).
  assert (Nb : rms_b <> []) by (intro; subst; destruct rms_a; discriminate).
  split; [| split; assumption].
  f_equal. unfold len, np_divide. rewrite length_map, length_combine, Ln, Ed.
  destruct rms_a; [congruence |]. destruct rms_b; [congruence |].
  cbn [List.length]. lia.
Qed.
End Half.

(** C7 as stated fails: a recording that is equally loud at its start
    and at its end. Sliding the envelope by 1480 ms puts loud on loud over
    all of the 101 frames that still overlap; the mean product there
    (entries 100 and 394, 987/2020 each) beats the one at zero lag
    (entry 247, 1243/3100), the constraints leave these entries in place,
    and the estimate is -1480 ms, 148 hops from 0. With [half_idx = 248]
    only the indices 247, 248 and 249 give an estimate within one hop of
    0, and their entries (about 0.40) lie well below 987/2020 (about
    0.49): no rounding inside the library's correlation makes one of them
    the maximum. *)
Lemma self_shift_two_bursts :
  (env <- audio_to_rms_envelope two_bursts 100 25%Q 10%Q ;;
   ch <- constrained_corr env env 10%Q 1%Q 30%Q ;;
   Ok (len env, snd ch,
       map (fun i => Qred (nth i (fst ch) 0%Q)) [100; 394; 247; 248; 249]%nat))
    = Ok (248, 248,
          [987 # 2020; 987 # 2020; 1243 # 3100; 395 # 988; 979 # 2460]%Q) /\
  exists s : Q,
    get_shift_ms two_bursts two_bursts 100 100 25%Q 10%Q 1%Q 30%Q = Ok s /\
    (s == - 1480)%Q /\
    ~ (Qabs s <= 10)%Q.
Proof.
  split; [vm_compute; reflexivity |].
  eexists. split; [vm_compute; reflexivity |].
  split; [vm_compute; reflexivity |].
  vm_compute. intro L. apply L. reflexivity.
Qed.

End SelfShift.


(** * The maximum-shift constraint (shign.py, lines 57-60) *)

Module MaxShift.

Section Window.
Context {F : Type} `{PyFloat F}.

Lemma max_shift_window (corr : list F) (half_idx : Z)
    (max_shift_sec hop_length_ms : F) (n : Z) :
  feqb max_shift_sec (of_int 0) = false ->
  sec_to_frames max_shift_sec hop_length_ms = Ok n ->
  0 <= half_idx + n ->
  exists corr' : list F,
    constrain_max_shift corr half_idx max_shift_sec hop_length_ms = Ok corr' /\
    List.length corr' = List.length corr /\
    forall (i : nat) (d : F), (i < List.length corr)%nat ->
      nth i corr' d
      = if (half_idx - n <=? Z.of_nat i) && (Z.of_nat i <? half_idx + n)
        then nth i corr d else of_int 0.
Proof.
  intros Hne Hn Hpos. unfold constrain_max_shift.
  rewrite Hne, Hn. cbn [negb bind]. eexists. split; [reflexivity |].
  split; [rewrite !MinOverlap.length_slice_assign; reflexivity |].
  intros i d Hi.
  rewrite MinOverlap.nth_slice_assign
    by (rewrite MinOverlap.length_slice_assign; exact Hi).
  rewrite MinOverlap.nth_slice_assign by exact Hi.
  cbn [slice_start slice_stop]. rewrite MinOverlap.len_slice_assign.
  unfold slice_index.
  assert (Hl : Z.of_nat i < len corr) by (unfold len; lia).
  replace (Z.max (half_idx - n) 0 <? 0) with false
    by (symmetry; apply Z.ltb_ge; lia).
  replace (Z.min (half_idx + n) (len corr) <? 0) with false
    by (symmetry; apply Z.ltb_ge; pose proof (Overlap.len_nonneg corr); lia).
  repeat match goal with
         | |- context [?a <=? ?b] => destruct (Z.leb_spec a b)
         | |- context [?a <? ?b] => destruct (Z.ltb_spec a b)
         end; cbn [andb orb]; try reflexivity; lia.
Qed.

(** X1: with [max_shift_sec] not 0, a frame count [n] and
    [0 <= half_idx + n], the constraint keeps the entries with index in
    [half_idx - n, half_idx + n) as they were and zeroes every other
    entry; the length does not change. *)
Theorem constrain_max_shift_window (corr : list F) (half_idx : Z)
    (max_shift_sec hop_length_ms : F) (n : Z) :
  feqb max_shift_sec (of_int 0) = false ->
  sec_to_frames max_shift_sec hop_length_ms = Ok n ->
  0 <= half_idx + n ->
  exists corr' : list F,
    constrain_max_shift corr half_idx max_shift_sec hop_length_ms = Ok corr' /\
    List.length corr' = List.length corr /\
    forall (i : nat) (d : F), (i < List.length corr)%nat ->
      nth i corr' d
      = if (half_idx - n <=? Z.of_nat i) && (Z.of_nat i <? half_idx + n)
        then nth i corr d else of_int 0.
Proof. apply max_shift_window. Qed.

Lemma constrain_max_shift_length (corr corr' : list F) (half_idx : Z) (m h : F) :
  constrain_max_shift corr half_idx m h = Ok corr' ->
  List.length corr' = List.length corr.
Proof.
  unfold constrain_max_shift. destruct (negb (feqb m (of_int 0))).
  - destruct (sec_to_frames m h); cbn [bind]; intro E; inversion E.
    rewrite !MinOverlap.length_slice_assign. reflexivity.
  - intro E; inversion E. reflexivity.
Qed.
End Window.

(** Seven entries, [half_idx = 4], a window of 20 ms at the 10 ms hop
    ([n = 2]): entries 2 and 3, 4 and 5 stay. *)
Lemma constrain_max_shift_window_example :
  exists corr' : list Q,
    constrain_max_shift [1; 2; 3; 4; 5; 6; 7]%Q 4 (20 # 1000)%Q 10%Q = Ok corr' /\
    List.length corr' = List.length [1; 2; 3; 4; 5; 6; 7]%Q /\
    forall (i : nat) (d : Q), (i < List.length [1; 2; 3; 4; 5; 6; 7]%Q)%nat ->
      nth i corr' d
      = if (4 - 2 <=? Z.of_nat i) && (Z.of_nat i <? 4 + 2)
        then nth i [1; 2; 3; 4; 5; 6; 7]%Q d else of_int 0.
Proof.
  apply (@constrain_max_shift_window Q Q_float [1; 2; 3; 4; 5; 6; 7]%Q 4
           (20 # 1000)%Q 10%Q 2).
  - reflexivity.
  - reflexivity.
  - lia.
Defined.

End MaxShift.

(** * The shift estimator as a whole (shign.py, lines 44-66) *)

Module Estimate.

Lemma round_half_nonneg (n : Z) : 0 <= n -> 0 <= round_half n.
Proof.
  intro Hn. unfold round_half.
  assert (0 <= n / 2) by (apply Z.div_pos; lia).
  destruct (Z.even n); [assumption |]. destruct (Z.even (n / 2)); lia.
Qed.

Section Generic.
Context {F : Type} `{PyFloat F}.

Lemma argmax_from_bounds (l : list F) (i : Z) (best : F) (best_i : Z) :
  0 <= best_i < i ->
  0 <= argmax_from l i best best_i < i + len l.
Proof.
  revert i best best_i. induction l as [| x l IH]; intros i best best_i Hb.
  - cbn [argmax_from]. unfold len. cbn [List.length]. lia.
  - cbn [argmax_from]. rewrite Overlap.len_cons.
    destruct (fltb best x).
    + specialize (IH (i + 1) x i). lia.
    + specialize (IH (i + 1) best best_i). lia.
Qed.

Lemma np_argmax_bounds (l : list F) (am : Z) :
  np_argmax l = Ok am -> 0 <= am < len l.
Proof.
  destruct l as [| x l]; cbn [np_argmax]; intro E; inversion E.
  rewrite Overlap.len_cons.
  pose proof (@argmax_from_bounds l 1 x 0). lia.
Qed.

Lemma np_argmax_ok (l : list F) :
  l <> [] -> exists am, np_argmax l = Ok am.
Proof. destruct l; [congruence |]. intros _. eexists. reflexivity. Qed.

Lemma correlate_ok (x y : list F) :
  x <> [] -> y <> [] -> exists out, correlate x y = Ok out.
Proof.
  destruct x; [congruence |]. destruct y; [congruence |].
  intros _ _. eexists. reflexivity.
Qed.

(** A waveform longer than the window has a non-empty envelope. *)
Lemma envelope_nonempty (audio : list F) (sr : Z) (win hop : F) (w h : Z) :
  ms_to_samples win sr = Ok w ->
  ms_to_samples hop sr = Ok h ->
  1 <= h ->
  w < len audio ->
  exists env, audio_to_rms_envelope audio sr win hop = Ok env /\ env <> [].
Proof.
  intros Hw Hh Hpos Hlong. unfold audio_to_rms_envelope.
  rewrite Hw, Hh. cbn [bind]. unfold py_range.
  replace (h =? 0) with false by (symmetry; apply Z.eqb_neq; lia).
  cbn [bind]. eexists. split; [reflexivity |].
  destruct (Z.to_nat (Z.abs (len audio - w - 0))) eqn:Ef; [lia |].
  cbn [range_loop].
  replace (0 <? h) with true by (symmetry; apply Z.ltb_lt; lia).
  replace (0 <? len audio - w) with true by (symmetry; apply Z.ltb_lt; lia).
  cbn [map]. discriminate.
Qed.

Lemma length_np_divide (num den : list F) :
  List.length (np_divide num den) = Nat.min (List.length num) (List.length den).
Proof. unfold np_divide. rewrite length_map, length_combine. reflexivity. Qed.

(** The constrained correlation of two non-empty envelopes exists when
    the two frame counts convert, and has
    [len(rms_a) + len(rms_b) - 1] entries. *)
Lemma constrained_corr_ok (rms_a rms_b : list F) (hop m s : F) (n1 n2 : Z) :
  rms_a <> [] -> rms_b <> [] ->
  sec_to_frames m hop = Ok n1 ->
  sec_to_frames s hop = Ok n2 ->
  exists corr,
    constrained_corr rms_a rms_b hop m s
      = Ok (corr, round_half (len rms_a + len rms_b - 1)) /\
    len corr = len rms_a + len rms_b - 1.
Proof.
  intros Na Nb H1 H2. unfold constrained_corr.
  destruct (correlate_ok Na Nb) as [num En]. rewrite En. cbn [bind].
  assert (Na' : np_ones_like rms_a <> [])
    by (destruct rms_a; [congruence | discriminate]).
  assert (Nb' : np_ones_like rms_b <> [])
    by (destruct rms_b; [congruence | discriminate]).
  destruct (correlate_ok Na' Nb') as [den Ed]. rewrite Ed. cbn [bind].
  apply SelfShift.correlate_length in En, Ed.
  unfold np_ones_like in Ed. rewrite !length_map in Ed.
  assert (Ld : len (np_divide num den) = len rms_a + len rms_b - 1).
  { unfold len. rewrite length_np_divide, En, Ed.
    destruct rms_a; [congruence |]. destruct rms_b; [congruence |].
    cbn [List.length]. lia. }
  assert (S1 : exists c1, constrain_min_overlap (np_divide num den) m hop = Ok c1).
  { unfold constrain_min_overlap. rewrite H1.
    destruct (negb (feqb m (of_int 0))); eexists; reflexivity. }
  destruct S1 as [c1 E1]. rewrite E1. cbn [bind].
  assert (S2 : exists c2,
             constrain_max_shift c1 (round_half (len (np_divide num den))) s hop
             = Ok c2).
  { unfold constrain_max_shift. rewrite H2.
    destruct (negb (feqb s (of_int 0))); eexists; reflexivity. }
  destruct S2 as [c2 E2]. rewrite E2. cbn [bind].
  exists c2. rewrite Ld. split; [reflexivity |].
  apply MaxShift.constrain_max_shift_length in E2.
  apply SelfShift.constrain_min_overlap_length in E1.
  unfold len in *. rewrite E2, E1. exact Ld.
Qed.

Lemma get_shift_ms_ok (audio_a audio_b : list F) (sr_a sr_b : Z)
    (win hop min_overlap_sec max_shift_sec : F) (w_a h_a w_b h_b n1 n2 : Z) :
  ms_to_samples win sr_a = Ok w_a ->
  ms_to_samples hop sr_a = Ok h_a ->
  ms_to_samples win sr_b = Ok w_b ->
  ms_to_samples hop sr_b = Ok h_b ->
  sec_to_frames min_overlap_sec hop = Ok n1 ->
  sec_to_frames max_shift_sec hop = Ok n2 ->
  1 <= h_a -> 1 <= h_b ->
  w_a < len audio_a -> w_b < len audio_b ->
  exists shift_ms : F,
    get_shift_ms audio_a audio_b sr_a sr_b win hop min_overlap_sec max_shift_sec
    = Ok shift_ms.
Proof.
  intros Hwa Hha Hwb Hhb H1 H2 Pa Pb La Lb. unfold get_shift_ms.
  destruct (@envelope_nonempty audio_a sr_a win hop w_a h_a Hwa Hha Pa La)
    as [ea [-> Na]].
  destruct (@envelope_nonempty audio_b sr_b win hop w_b h_b Hwb Hhb Pb Lb)
    as [eb [-> Nb]].
  cbn [bind].
  destruct (@constrained_corr_ok ea eb hop min_overlap_sec max_shift_sec n1 n2
              Na Nb H1 H2) as [corr [-> Lc]].
  cbn [bind fst snd].
  assert (Nc : corr <> []).
  { intro E. subst corr. unfold len in Lc. cbn [List.length] in Lc.
    destruct ea; [congruence |]. destruct eb; [congruence |].
    cbn [List.length] in Lc. lia. }
  destruct (np_argmax_ok Nc) as [am ->]. cbn [bind].
  eexists. reflexivity.
Qed.
(** X3: two waveforms longer than the window, a hop of at least one
    sample and frame counts that convert: [get_shift_ms] returns a value
    (the converse of the failure on an empty envelope). *)
Theorem get_shift_ms_returns (audio_a audio_b : list F) (sr_a sr_b : Z)
    (win hop min_overlap_sec max_shift_sec : F) (w_a h_a w_b h_b n1 n2 : Z) :
  ms_to_samples win sr_a = Ok w_a ->
  ms_to_samples hop sr_a = Ok h_a ->
  ms_to_samples win sr_b = Ok w_b ->
  ms_to_samples hop sr_b = Ok h_b ->
  sec_to_frames min_overlap_sec hop = Ok n1 ->
  sec_to_frames max_shift_sec hop = Ok n2 ->
  1 <= h_a -> 1 <= h_b ->
  w_a < len audio_a -> w_b < len audio_b ->
  exists shift_ms : F,
    get_shift_ms audio_a audio_b sr_a sr_b win hop min_overlap_sec max_shift_sec
    = Ok shift_ms.
Proof. apply get_shift_ms_ok. Qed.
End Generic.

(** Two 60-sample waveforms at 1 kHz with the default parameters. *)
Lemma get_shift_ms_returns_example :
  exists shift_ms : Q,
    get_shift_ms (steady 60) (steady 60) 1000 1000 25%Q 10%Q 1%Q 30%Q = Ok shift_ms.
Proof.
  apply (@get_shift_ms_returns Q Q_float (steady 60) (steady 60) 1000 1000
           25%Q 10%Q 1%Q 30%Q 25 10 25 10 100 3000).
  all: try reflexivity; try lia.
  all: vm_compute; reflexivity.
Defined.

End Estimate.

(** * What the constraints do to the estimate (shign.py, lines 47-66) *)

Module Constrained.

Section Margins.
Context {F : Type} `{PyFloat F}.

(** X14: with [min_overlap_sec] not 0 and a frame count [n] of at least
    one, the overlap constraint zeroes the first [n] and the last [n]
    entries of the correlation, keeps every other entry and keeps the
    length. *)
Theorem min_overlap_zeroes_the_margins (corr : list F)
    (min_overlap_sec hop_length_ms : F) (n : Z) :
  feqb min_overlap_sec (of_int 0) = false ->
  sec_to_frames min_overlap_sec hop_length_ms = Ok n ->
  1 <= n ->
  exists corr' : list F,
    constrain_min_overlap corr min_overlap_sec hop_length_ms = Ok corr' /\
    List.length corr' = List.length corr /\
    forall (i : nat) (d : F), (i < List.length corr)%nat ->
      nth i corr' d
      = if (Z.of_nat i <? n) || (len corr - n <=? Z.of_nat i)
        then of_int 0 else nth i corr d.
Proof. apply MinOverlap.constrain_min_overlap_ends. Qed.
End Margins.

(** Seven entries and 20 ms at the 10 ms hop ([n = 2]). *)
Lemma min_overlap_zeroes_the_margins_example :
  exists corr' : list Q,
    constrain_min_overlap [1; 2; 3; 4; 5; 6; 7]%Q (20 # 1000)%Q 10%Q = Ok corr' /\
    List.length corr' = List.length [1; 2; 3; 4; 5; 6; 7]%Q /\
    forall (i : nat) (d : Q), (i < List.length [1; 2; 3; 4; 5; 6; 7]%Q)%nat ->
      nth i corr' d
      = if (Z.of_nat i <? 2) || (len [1; 2; 3; 4; 5; 6; 7]%Q - 2 <=? Z.of_nat i)
        then of_int 0 else nth i [1; 2; 3; 4; 5; 6; 7]%Q d.
Proof.
  apply (@min_overlap_zeroes_the_margins Q Q_float [1; 2; 3; 4; 5; 6; 7]%Q
           (20 # 1000)%Q 10%Q 2).
  - reflexivity.
  - reflexivity.
  - lia.
Defined.

Section Inside.
Context {F : Type} `{PyFloat F}.

(** X2: when both constraints are on and the entry [np.argmax] picks is not
    zero, its index lies outside the margins of [n1] frames that the
    overlap constraint zeroes, and within [n2] frames of [half_idx]: the
    shift of the centres is in [-n2, n2). *)
Lemma estimate_inside_constraints (rms_a rms_b corr : list F)
    (hop min_overlap_sec max_shift_sec : F) (n1 n2 half am : Z) :
  feqb min_overlap_sec (of_int 0) = false ->
  feqb max_shift_sec (of_int 0) = false ->
  sec_to_frames min_overlap_sec hop = Ok n1 ->
  sec_to_frames max_shift_sec hop = Ok n2 ->
  1 <= n1 -> 0 <= n2 ->
  constrained_corr rms_a rms_b hop min_overlap_sec max_shift_sec = Ok (corr, half) ->
  np_argmax corr = Ok am ->
  nth (Z.to_nat am) corr (of_int 0) <> of_int 0 ->
  (n1 <= am < len corr - n1) /\ (- n2 <= am - half < n2).
Proof.
  intros Z1 Z2 H1 H2 P1 P2 Hc Ha Hnz.
  unfold constrained_corr in Hc.
  destruct (correlate rms_a rms_b) as [num | e]; cbn [bind] in Hc;
    [| discriminate].
  destruct (correlate (np_ones_like rms_a) (np_ones_like rms_b)) as [den | e];
    cbn [bind] in Hc; [| discriminate].
  set (c0 := np_divide num den) in *.
  destruct (@MinOverlap.constrain_min_overlap_ends F _ c0 min_overlap_sec hop n1
              Z1 H1 P1) as [c1 [E1 [L1 N1]]].
  rewrite E1 in Hc. cbn [bind] in Hc.
  assert (Ph : 0 <= round_half (len c0) + n2).
  { pose proof (Estimate.round_half_nonneg (Overlap.len_nonneg c0)). lia. }
  destruct (@MaxShift.max_shift_window F _ c1 (round_half (len c0))
              max_shift_sec hop n2 Z2 H2 Ph) as [c2 [E2 [L2 N2]]].
  rewrite E2 in Hc. cbn [bind] in Hc. inversion Hc; subst corr half. clear Hc.
  apply Estimate.np_argmax_bounds in Ha.
  assert (Lc : len c2 = len c0) by (unfold len; rewrite L2, L1; reflexivity).
  assert (Hi : (Z.to_nat am < List.length c0)%nat) by (unfold len in *; lia).
  rewrite N2 in Hnz by (rewrite L1; exact Hi).
  rewrite N1 in Hnz by exact Hi.
  rewrite Z2Nat.id in Hnz by lia. rewrite Lc.
  destruct (Z.leb_spec (round_half (len c0) - n2) am);
    destruct (Z.ltb_spec am (round_half (len c0) + n2));
    cbn [andb] in Hnz; try congruence.
  destruct (Z.ltb_spec am n1); destruct (Z.leb_spec (len c0 - n1) am);
    cbn [orb] in Hnz; try congruence.
  lia.
Qed.
End Inside.

(** An envelope of six frames against itself, margins of 2 frames and a
    window of 3 frames around [half_idx = 6]: the maximum, 91/6, is at
    index 5, the zero lag. *)
Lemma estimate_inside_constraints_example :
  (2 <= 5 < len [0; 0; 0; 50 # 4; 70 # 5; 91 # 6; 70 # 5; 50 # 4; 32 # 3; 0; 0]%Q - 2) /\
  (- 3 <= 5 - 6 < 3).
Proof.
  apply (@estimate_inside_constraints Q Q_float
           [1; 2; 3; 4; 5; 6]%Q [1; 2; 3; 4; 5; 6]%Q
           [0; 0; 0; 50 # 4; 70 # 5; 91 # 6; 70 # 5; 50 # 4; 32 # 3; 0; 0]%Q
           10%Q (20 # 1000)%Q (30 # 1000)%Q 2 3 6 5).
  all: try reflexivity; try lia.
  all: vm_compute; try reflexivity; discriminate.
Defined.

End Constrained.

(** * Recordings the estimator cannot judge (shign.py, lines 44-66) *)

Module Blind.
Import QFacts.

(** X5: with the default hop of 10 ms a sample rate below 100 Hz makes the
    hop 0 samples, and [shift_align] ends in the [ValueError] of [range],
    whatever the audio, the thresholds and the policy. *)
Theorem shift_align_low_sample_rate (audio_a audio_b : list Q) (sr_a sr_b : Z)
    (align_how : string) (min_overlap_sec max_shift_sec : Q) :
  0 <= sr_a < 100 ->
  shift_align audio_a audio_b (Some sr_a) (Some sr_b) align_how
              min_overlap_sec max_shift_sec
  = Err (ValueError "range() arg 3 must not be zero").
Proof.
  intro Hsr. unfold shift_align. cbn [assert_not_none bind].
  unfold get_shift_ms, audio_to_rms_envelope.
  rewrite !ms_to_samples_Q. cbn [bind].
  assert (E : Qtrunc (of_int 10 / 1000 * inject_Z sr_a) = 0).
  { unfold Qtrunc. cbn [Qnum Qden Qmult Qdiv Qinv inject_Z of_int Q_float].
    change (Z.quot (10 * 1 * sr_a) (Zpos (1 * 1000 * 1)) = 0).
    apply Z.quot_small. lia. }
  rewrite E. reflexivity.
Qed.

Lemma shift_align_low_sample_rate_example :
  shift_align (steady 60) (steady 60) (Some 50) (Some 44100) "pad_both" 1%Q 30%Q
  = Err (ValueError "range() arg 3 must not be zero").
Proof.
  apply (@shift_align_low_sample_rate (steady 60) (steady 60) 50 44100
           "pad_both" 1%Q 30%Q). lia.
Defined.

End Blind.

(** * What the transforms do to the samples, whatever the arithmetic
      (shign.py, lines 111-267) *)

Module Shapes.

Section Blocks.
Context {F : Type} `{PyFloat F}.

(** X6: whatever the arithmetic, when [pad_both] returns, each output is
    its input with nothing but zeros before and after it. *)
Theorem pad_both_keeps_the_audio (audio_a audio_b : list F) (sr_a sr_b : Z)
    (shift_ms : F) (out_a out_b : list F) :
  pad_both audio_a audio_b sr_a sr_b shift_ms = Ok (out_a, out_b) ->
  exists sa ea sb eb : nat,
    out_a = repeat (of_int 0) sa ++ audio_a ++ repeat (of_int 0) ea /\
    out_b = repeat (of_int 0) sb ++ audio_b ++ repeat (of_int 0) eb.
Proof. apply Transforms.pad_both_adds_only_silence. Qed.

(** X7: whatever the arithmetic, when [crop_both] returns, each output
    is one contiguous block of its input. *)
Theorem crop_both_keeps_the_order (audio_a audio_b : list F) (sr_a sr_b : Z)
    (shift_ms : F) (out_a out_b : list F) :
  crop_both audio_a audio_b sr_a sr_b shift_ms = Ok (out_a, out_b) ->
  (exists before after, audio_a = before ++ out_a ++ after) /\
  (exists before after, audio_b = before ++ out_b ++ after).
Proof. apply Transforms.crop_both_keeps_a_block. Qed.
End Blocks.

(** [[1, 2, 3, 4]] and [[3, 4, 5]] of the docstring, as constant
    waveforms at 1 kHz with a shift of 2 ms. *)
Lemma pad_both_keeps_the_audio_example :
  exists sa ea sb eb : nat,
    steady 4 ++ [0%Q]
      = repeat (of_int 0) sa ++ steady 4 ++ repeat (of_int 0) ea /\
    [0; 0]%Q ++ steady 3
      = repeat (of_int 0) sb ++ steady 3 ++ repeat (of_int 0) eb.
Proof.
  apply (@pad_both_keeps_the_audio Q Q_float
           (steady 4) (steady 3) 1000 1000 2%Q).
  vm_compute. reflexivity.
Defined.

Lemma crop_both_keeps_the_order_example :
  (exists before after, steady 4 = before ++ steady 2 ++ after) /\
  (exists before after, steady 3 = before ++ steady 2 ++ after).
Proof.
  apply (@crop_both_keeps_the_order Q Q_float
           (steady 4) (steady 3) 1000 1000 2%Q).
  vm_compute. reflexivity.
Defined.

Lemma firstn_repeat {A} (v : A) (m k : nat) :
  firstn m (repeat v k) = repeat v (Nat.min m k).
Proof.
  revert k. induction m as [| m IH]; intro k; [reflexivity |].
  destruct k as [| k]; [reflexivity |].
  cbn [repeat firstn Nat.min]. rewrite IH. reflexivity.
Qed.

Lemma py_slice_prefix {A} (l : list A) (hi : option Z) :
  py_slice l None hi = firstn (Z.to_nat (slice_stop l hi)) l.
Proof.
  unfold py_slice. cbn [slice_start]. rewrite Z.sub_0_r. reflexivity.
Qed.

Section Shape.
Context {F : Type} `{PyFloat F}.

(** X8: whatever the arithmetic, [pad_and_crop_one_to_match_other] returns
    its first waveform untouched, and a second one made of one contiguous
    block of the second input with nothing but zeros before and after
    it. *)
Lemma pad_and_crop_keeps_a_block (audio_a audio_b : list F) (sr_a sr_b : Z)
    (shift_ms : F) (out_a out_b : list F) :
  pad_and_crop_one_to_match_other audio_a audio_b sr_a sr_b shift_ms
    = Ok (out_a, out_b) ->
  out_a = audio_a /\
  exists (p q : nat) (block before after : list F),
    out_b = repeat (of_int 0) p ++ block ++ repeat (of_int 0) q /\
    audio_b = before ++ block ++ after.
Proof.
  unfold pad_and_crop_one_to_match_other. cbv zeta.
  destruct (ms_to_samples shift_ms sr_b) as [s1 | e]; cbn [bind];
    [| discriminate].
  assert (Start : forall b1,
             (if s1 <? 0 then Ok (py_slice audio_b (Some (Z.abs s1)) None)
              else z <- np_zeros s1;; Ok (z ++ audio_b)) = Ok b1 ->
             exists (p : nat) (blk pre post : list F),
               b1 = repeat (of_int 0) p ++ blk /\ audio_b = pre ++ blk ++ post).
  { intros b1. destruct (s1 <? 0).
    - intro E; inversion E; subst.
      destruct (Transforms.slice_is_block audio_b (Some (Z.abs s1)) None)
        as [pre [post P]].
      exists O, (py_slice audio_b (Some (Z.abs s1)) None), pre, post.
      split; [reflexivity | exact P].
    - destruct (np_zeros s1) as [z | e] eqn:Ez; cbn [bind]; [| discriminate].
      intro E; inversion E; subst. apply Transforms.np_zeros_inv in Ez. subst z.
      exists (Z.to_nat s1), audio_b, [], [].
      split; [reflexivity | rewrite app_nil_r; reflexivity]. }
  destruct (if s1 <? 0 then Ok (py_slice audio_b (Some (Z.abs s1)) None)
            else z <- np_zeros s1;; Ok (z ++ audio_b)) as [b1 | e] eqn:Eb;
    cbn [bind]; [| discriminate].
  destruct (Start b1 eq_refl) as [p [blk [pre [post [-> Pb]]]]].
  destruct (ms_to_samples _ sr_b) as [e1 | e]; cbn [bind]; [| discriminate].
  destruct (e1 <? 0).
  - cbn [bind]. intro E; inversion E; subst out_a out_b. split; [reflexivity |].
    rewrite py_slice_prefix, firstn_app, firstn_repeat, repeat_length.
    set (m := Z.to_nat _).
    exists (Nat.min m p), O, (firstn (m - p) blk), pre, (skipn (m - p) blk ++ post).
    split; [rewrite app_nil_r; reflexivity |].
    rewrite Pb. rewrite <- (firstn_skipn (m - p) blk) at 1.
    rewrite <- !app_assoc. reflexivity.
  - destruct (np_zeros e1) as [z | e] eqn:Ez; cbn [bind]; [| discriminate].
    intro E; inversion E; subst out_a out_b. split; [reflexivity |].
    apply Transforms.np_zeros_inv in Ez. subst z.
    exists p, (Z.to_nat e1), blk, pre, post.
    split; [rewrite <- app_assoc; reflexivity | exact Pb].
Qed.
End Shape.

(** The docstring's first example with the roles as the code has them:
    the second waveform is cut at the start and padded at the end. *)
Lemma pad_and_crop_keeps_a_block_example :
  steady 3 = steady 3 /\
  exists (p q : nat) (block before after : list Q),
    steady 2 ++ [0%Q] = repeat (of_int 0) p ++ block ++ repeat (of_int 0) q /\
    steady 4 = before ++ block ++ after.
Proof.
  apply (@pad_and_crop_keeps_a_block Q Q_float
           (steady 3) (steady 4) 1000 1000 (- 2)%Q).
  vm_compute. reflexivity.
Defined.

End Shapes.

(** * Which side each transform touches (shign.py, lines 111-202) *)

Module Sides.
Import QFacts.

Lemma start_zero_when_nonneg (q : Q) (sr : Z) :
  (0 <= q)%Q -> Qtrunc (fneg (py_min (of_int 0) q) / 1000 * inject_Z sr) = 0.
Proof.
  intro Hq. apply Transforms.Qtrunc_zero.
  unfold py_min. cbn [fltb fneg of_int Q_float].
  replace (Qltb q (inject_Z 0)) with false
    by (symmetry; apply Qltb_ge; exact Hq).
  change (inject_Z 0) with 0%Q. field.
Qed.

Lemma start_zero_when_nonpos (q : Q) (sr : Z) :
  (q <= 0)%Q -> Qtrunc (py_max (of_int 0) q / 1000 * inject_Z sr) = 0.
Proof.
  intro Hq. apply Transforms.Qtrunc_zero.
  unfold py_max. cbn [fltb of_int Q_float].
  replace (Qltb (inject_Z 0) q) with false
    by (symmetry; apply Qltb_ge; exact Hq).
  change (inject_Z 0) with 0%Q. field.
Qed.

Lemma py_slice_from {A} (l : list A) (k : Z) :
  0 <= k -> py_slice l (Some k) None = skipn (Z.to_nat k) l.
Proof.
  intro Hk. unfold py_slice. cbn [slice_start slice_stop]. unfold slice_index.
  replace (k <? 0) with false by (symmetry; apply Z.ltb_ge; exact Hk).
  destruct (Z_le_gt_dec k (len l)) as [L | L].
  - rewrite Z.min_l by exact L. apply firstn_all2.
    rewrite length_skipn. unfold len in *. lia.
  - rewrite Z.min_r by lia. rewrite Z.sub_diag. cbn [Z.to_nat firstn].
    symmetry. apply skipn_all2. unfold len in *. lia.
Qed.

(** X11: two waveforms of one length at one positive sample rate and a
    shift of 0: each of the three transforms returns its inputs as they
    are. *)
Theorem aligned_input_is_kept (audio_a audio_b : list Q) (sr : Z) :
  0 < sr -> len audio_a = len audio_b ->
  pad_both audio_a audio_b sr sr 0%Q = Ok (audio_a, audio_b) /\
  crop_both audio_a audio_b sr sr 0%Q = Ok (audio_a, audio_b) /\
  pad_and_crop_one_to_match_other audio_a audio_b sr sr 0%Q = Ok (audio_a, audio_b).
Proof.
  intros Hs Hl.
  assert (S1 : Qtrunc (fneg (py_min (of_int 0) 0%Q) / 1000 * inject_Z sr) = 0)
    by (apply start_zero_when_nonneg; apply Qle_refl).
  assert (S2 : Qtrunc (py_max (of_int 0) 0%Q / 1000 * inject_Z sr) = 0)
    by (apply start_zero_when_nonpos; apply Qle_refl).
  destruct (Transforms.shift_end_equal_rate (len audio_a) (len audio_b) Hs)
    as [E1 E2].
  rewrite Hl, Z.sub_diag in E1, E2. change (Z.max 0 0) with 0 in E1, E2.
  assert (Z0 : np_zeros (F := Q) 0 = Ok []) by reflexivity.
  split; [| split].
  - unfold pad_both. cbv zeta.
    rewrite ms_to_samples_Q. cbn [bind]. rewrite ms_to_samples_Q. cbn [bind].
    rewrite S1, Z0. cbn [bind app]. rewrite S2, Z0. cbn [bind app].
    rewrite Hl, E2. cbn [bind]. rewrite E1. cbn [bind].
    rewrite Z0. cbn [bind]. rewrite !app_nil_r. reflexivity.
  - unfold crop_both. cbv zeta.
    rewrite ms_to_samples_Q. cbn [bind]. rewrite ms_to_samples_Q. cbn [bind].
    rewrite S1, S2. rewrite !py_slice_from by lia. cbn [Z.to_nat skipn].
    rewrite Hl, E1. cbn [bind]. rewrite E2. cbn [bind Z.ltb Z.compare].
    reflexivity.
  - unfold pad_and_crop_one_to_match_other. cbv zeta.
    rewrite ms_to_samples_Q. cbn [bind].
    assert (S0 : Qtrunc (0 / 1000 * inject_Z sr) = 0)
      by (apply Transforms.Qtrunc_zero; field).
    rewrite S0. cbn [Z.ltb Z.compare]. rewrite Z0. cbn [bind app].
    rewrite ms_to_samples_Q. cbn [bind].
    assert (Se : Qtrunc (fsub (samples_to_ms (len audio_a) sr)
                              (samples_to_ms (len audio_b) sr)
                         / 1000 * inject_Z sr) = 0).
    { rewrite (Qtrunc_comp
                 (Transforms.shift_end_samples_equal_rate (len audio_a) (len audio_b) Hs)).
      rewrite Hl, Z.sub_diag. reflexivity. }
    rewrite Se. cbn [Z.ltb Z.compare]. rewrite Z0. cbn [bind].
    rewrite app_nil_r. reflexivity.
Qed.

Lemma aligned_input_is_kept_example :
  pad_both (steady 5) (steady 5) 44100 44100 0%Q = Ok (steady 5, steady 5) /\
  crop_both (steady 5) (steady 5) 44100 44100 0%Q = Ok (steady 5, steady 5) /\
  pad_and_crop_one_to_match_other (steady 5) (steady 5) 44100 44100 0%Q
    = Ok (steady 5, steady 5).
Proof.
  apply (@aligned_input_is_kept (steady 5) (steady 5) 44100); [lia | reflexivity].
Defined.

End Sides.

(** * The whole call (shign.py, lines 307-326) *)

Module Policy.
Import QFacts.

Section OwnErrors.
Context {F : Type} `{PyFloat F}.

Lemma np_zeros_error (k : Z) (e : py_error) :
  np_zeros (F := F) k = Err e -> raised_by_shign e = false.
Proof.
  unfold np_zeros. destruct (k <? 0); intro E; inversion E. reflexivity.
Qed.

Lemma correlate_error (x y : list F) (e : py_error) :
  correlate x y = Err e -> raised_by_shign e = false.
Proof.
  unfold correlate. destruct x, y; intro E; inversion E; reflexivity.
Qed.

Lemma sec_to_frames_error (sec fl : F) (e : py_error) :
  sec_to_frames sec fl = Err e -> raised_by_shign e = false.
Proof. apply Degenerate.py_int_error. Qed.

Lemma np_argmax_error (l : list F) (e : py_error) :
  np_argmax l = Err e -> raised_by_shign e = false.
Proof. destruct l; intro E; inversion E. reflexivity. Qed.

Ltac library_error :=
  let R := fresh "R" in
  intro R; inversion R; subst;
  first [ eapply Degenerate.ms_to_samples_error; eassumption
        | eapply np_zeros_error; eassumption
        | eapply sec_to_frames_error; eassumption
        | eapply correlate_error; eassumption
        | eapply np_argmax_error; eassumption
        | eapply Degenerate.envelope_error; eassumption ].

Ltac step_bind :=
  match goal with
  | |- bind ?m _ = Err _ -> _ =>
      let E := fresh "E" in
      destruct m eqn:E; cbn [bind]; [| library_error]
  end.

Ltac zeros_bind :=
  match goal with
  | |- context [np_zeros ?k] =>
      let E := fresh "E" in
      destruct (np_zeros k) eqn:E; cbn [bind]; [| library_error]
  end.

Ltac through_binds :=
  repeat match goal with
         | |- bind ?m _ = Err _ -> _ =>
             let E := fresh "E" in
             destruct m eqn:E; cbn [bind]; [| library_error]
         end.

Lemma constrained_corr_error (rms_a rms_b : list F) (hop m s : F) (e : py_error) :
  constrained_corr rms_a rms_b hop m s = Err e -> raised_by_shign e = false.
Proof.
  unfold constrained_corr. cbv zeta.
  destruct (correlate rms_a rms_b) eqn:E1; cbn [bind]; [| library_error].
  destruct (correlate (np_ones_like rms_a) (np_ones_like rms_b)) eqn:E2;
    cbn [bind]; [| library_error].
  unfold constrain_min_overlap.
  destruct (negb (feqb m (of_int 0))).
  - destruct (sec_to_frames m hop) eqn:E3; cbn [bind]; [| library_error].
    unfold constrain_max_shift. destruct (negb (feqb s (of_int 0))).
    + destruct (sec_to_frames s hop) eqn:E4; cbn [bind]; [| library_error].
      discriminate.
    + cbn [bind]. discriminate.
  - cbn [bind]. unfold constrain_max_shift. destruct (negb (feqb s (of_int 0))).
    + destruct (sec_to_frames s hop) eqn:E4; cbn [bind]; [| library_error].
      discriminate.
    + cbn [bind]. discriminate.
Qed.

Lemma get_shift_ms_error (audio_a audio_b : list F) (sr_a sr_b : Z)
    (win hop m s : F) (e : py_error) :
  get_shift_ms audio_a audio_b sr_a sr_b win hop m s = Err e ->
  raised_by_shign e = false.
Proof.
  unfold get_shift_ms. cbv zeta.
  destruct (audio_to_rms_envelope audio_a sr_a win hop) eqn:E1; cbn [bind];
    [| library_error].
  destruct (audio_to_rms_envelope audio_b sr_b win hop) eqn:E2; cbn [bind];
    [| library_error].
  destruct (constrained_corr _ _ hop m s) eqn:E3; cbn [bind].
  2: { intro R; inversion R; subst. eapply constrained_corr_error; eassumption. }
  destruct (np_argmax _) eqn:E4; cbn [bind]; [discriminate | library_error].
Qed.

Lemma pad_both_error (audio_a audio_b : list F) (sr_a sr_b : Z) (shift_ms : F)
    (e : py_error) :
  pad_both audio_a audio_b sr_a sr_b shift_ms = Err e -> raised_by_shign e = false.
Proof. unfold pad_both. cbv zeta. through_binds. discriminate. Qed.

Lemma crop_both_error (audio_a audio_b : list F) (sr_a sr_b : Z) (shift_ms : F)
    (e : py_error) :
  crop_both audio_a audio_b sr_a sr_b shift_ms = Err e -> raised_by_shign e = false.
Proof. unfold crop_both. cbv zeta. through_binds. discriminate. Qed.

Lemma pad_and_crop_error (audio_a audio_b : list F) (sr_a sr_b : Z) (shift_ms : F)
    (e : py_error) :
  pad_and_crop_one_to_match_other audio_a audio_b sr_a sr_b shift_ms = Err e ->
  raised_by_shign e = false.
Proof.
  unfold pad_and_crop_one_to_match_other. cbv zeta.
  step_bind.
  match goal with |- context [if ?c then _ else _] => destruct c end; cbn [bind].
  - step_bind.
    match goal with |- context [if ?c then _ else _] => destruct c end;
      cbn [bind]; [discriminate |].
    zeros_bind. discriminate.
  - zeros_bind. step_bind.
    match goal with |- context [if ?c then _ else _] => destruct c end;
      cbn [bind]; [discriminate |].
    zeros_bind. discriminate.
Qed.

(** X12: [shift_align] raises an error of its own in two situations only: a
    sample rate is missing (the assertion), or the policy name is none of
    the three (the exception, after estimation went through). Every other
    failure comes out of a builtin or the numeric library. *)
Theorem shift_align_own_errors (audio_a audio_b : list F) (sr_a sr_b : option Z)
    (align_how : string) (min_overlap_sec max_shift_sec : F) (e : py_error) :
  shift_align audio_a audio_b sr_a sr_b align_how min_overlap_sec max_shift_sec
    = Err e ->
  raised_by_shign e = true ->
  ((sr_a = None \/ sr_b = None) /\ e = AssertionError sr_message) \/
  (align_how <> "pad_both" /\ align_how <> "crop_both" /\
   align_how <> "pad_and_crop_one_to_match_other" /\
   e = PyException ("Unknown value for align_how " ++ align_how)).
Proof.
  unfold shift_align.
  destruct sr_a as [ra |]; cbn [assert_not_none bind].
  2: { intros E _. inversion E. left. split; [left |]; reflexivity. }
  destruct sr_b as [rb |]; cbn [assert_not_none bind].
  2: { intros E _. inversion E. left. split; [right |]; reflexivity. }
  destruct (get_shift_ms audio_a audio_b ra rb (of_int 25) (of_int 10)
              min_overlap_sec max_shift_sec) as [s | e0] eqn:Eg; cbn [bind].
  2: { intros E Own. inversion E; subst.
       rewrite (get_shift_ms_error _ _ _ _ _ _ _ _ Eg) in Own. discriminate. }
  destruct (String.eqb align_how "pad_both") eqn:N1.
  { intros E Own. rewrite (pad_both_error _ _ _ _ _ E) in Own. discriminate. }
  destruct (String.eqb align_how "crop_both") eqn:N2.
  { intros E Own. rewrite (crop_both_error _ _ _ _ _ E) in Own. discriminate. }
  destruct (String.eqb align_how "pad_and_crop_one_to_match_other") eqn:N3.
  { intros E Own. rewrite (pad_and_crop_error _ _ _ _ _ E) in Own. discriminate. }
  intros E _. inversion E. right.
  apply String.eqb_neq in N1, N2, N3. repeat split; assumption.
Qed.
End OwnErrors.

Lemma shift_align_own_errors_example :
  ((Some 1000 = None \/ @None Z = None) /\
   AssertionError sr_message = AssertionError sr_message) \/
  ("pad_both" <> "pad_both" /\ "pad_both" <> "crop_both" /\
   "pad_both" <> "pad_and_crop_one_to_match_other" /\
   AssertionError sr_message
     = PyException ("Unknown value for align_how " ++ "pad_both")).
Proof.
  apply (@shift_align_own_errors Q Q_float (steady 60) (steady 60)
           (Some 1000) None "pad_both" 1%Q 30%Q (AssertionError sr_message));
    reflexivity.
Defined.

End Policy.

(** * Millisecond displacements as sample counts (util.py, lines 12-22;
      shign.py, lines 111-267) *)

Module Counts.
Import QFacts.

Lemma truncation_comp (v v' : Q) (z : Z) :
  (v == v')%Q -> truncation v z -> truncation v' z.
Proof.
  intros E [A [B C]]. unfold truncation. rewrite <- E. repeat split; assumption.
Qed.

Lemma truncation_floor (v : Q) : (0 <= v)%Q -> truncation v (Qfloor v).
Proof.
  intro Hv.
  assert (Pz : (0 <= inject_Z (Qfloor v))%Q).
  { change 0%Q with (inject_Z 0). rewrite <- Zle_Qle.
    change 0 with (Qfloor 0). apply Qfloor_resp_le. exact Hv. }
  unfold truncation. rewrite (Qabs_pos v) by exact Hv.
  rewrite (Qabs_pos (inject_Z (Qfloor v))) by exact Pz.
  split; [apply Qfloor_le |]. split.
  - pose proof (Qlt_floor v) as L. rewrite inject_Z_plus in L. exact L.
  - apply Qmult_le_0_compat; assumption.
Qed.

Lemma truncation_opp (v : Q) (z : Z) : truncation v z -> truncation (- v) (- z).
Proof.
  intros [A [B C]]. unfold truncation.
  rewrite inject_Z_opp, !Qabs_opp. split; [exact A |]. split; [exact B |].
  setoid_replace (- inject_Z z * - v)%Q with (inject_Z z * v)%Q by ring.
  exact C.
Qed.

(** [int] on the exact instance. *)
Lemma Qtrunc_truncation (q : Q) : truncation q (Qtrunc q).
Proof.
  destruct (Qlt_le_dec q 0) as [L | L].
  - assert (Hn : (0 <= - q)%Q) by lra.
    apply (truncation_comp (Qopp_involutive q)).
    replace (Qtrunc q) with (- Qtrunc (- q)) by (rewrite Qtrunc_opp; lia).
    apply truncation_opp. rewrite Qtrunc_nonneg by exact Hn.
    apply truncation_floor. exact Hn.
  - rewrite Qtrunc_nonneg by exact L. apply truncation_floor. exact L.
Qed.

(** [int] on binary64: the count is the value of the float, truncated
    toward zero. *)
Lemma float_trunc_truncation (f : float) (z : Z) :
  float_trunc f = inr z ->
  exists v : Q, float_value f = Some v /\ truncation v z.
Proof.
  unfold float_trunc, float_value.
  destruct (Prim2SF f) as [s | s | | s m e]; try discriminate.
  - intro E; inversion E. exists 0%Q. split; [reflexivity |].
    apply (truncation_floor (Qle_refl 0)).
  - intro E; inversion E as [Ez]. clear E Ez.
    assert (P : forall (v : Q) (k : Z), (0 <= v)%Q -> k = Qfloor v ->
              truncation (if s then (- v)%Q else v) (if s then - k else k)).
    { intros v k Hv ->. destruct s.
      - apply truncation_opp, truncation_floor, Hv.
      - apply truncation_floor, Hv. }
    eexists. split; [reflexivity |]. apply P.
    + destruct e as [| p | p].
      * change 0%Q with (inject_Z 0). rewrite <- Zle_Qle. lia.
      * change 0%Q with (inject_Z 0). rewrite <- Zle_Qle.
        apply Z.mul_nonneg_nonneg; [lia | apply Z.pow_nonneg; lia].
      * unfold Qle. cbn. lia.
    + destruct e as [| p | p].
      * symmetry. apply Qfloor_Z.
      * rewrite Qfloor_Z.
        exact (Z.shiftl_mul_pow2 (Zpos m) (Zpos p) ltac:(lia)).
      * unfold Qfloor. rewrite Pos2Z.inj_pow.
        exact (Z.shiftr_div_pow2 (Zpos m) (Zpos p) ltac:(lia)).
Qed.

(** In binary64 a sample count is the truncation of the value of the
    float product [ms / 1000 * sr]. *)
Lemma ms_to_samples_binary64 (ms : float) (sr k : Z) :
  ms_to_samples ms sr = Ok k ->
  exists v : Q,
    float_value (fmul (fdiv ms (of_int 1000)) (of_int sr)) = Some v /\
    truncation v k.
Proof.
  unfold ms_to_samples, sec_to_samples, py_int.
  destruct (trunc (fmul (fdiv ms (of_int 1000)) (of_int sr)))
    as [[|] | z] eqn:T; intro E; inversion E; subst.
  apply float_trunc_truncation. exact T.
Qed.

Section OwnRate.
Context {F : Type} `{PyFloat F}.

Ltac open_bind x E :=
  match goal with
  | |- bind ?m _ = Ok _ -> _ =>
      destruct m as [x | ?] eqn:E; cbn [bind]; [| discriminate]
  end.

Lemma np_zeros_count (k : Z) (z : list F) :
  np_zeros k = Ok z -> 0 <= k /\ z = repeat (of_int 0) (Z.to_nat k).
Proof.
  unfold np_zeros. destruct (k <? 0) eqn:C; intro E; inversion E.
  apply Z.ltb_ge in C. split; [exact C | reflexivity].
Qed.

(** The four counts of [pad_both]: start and end, each waveform at its
    own rate. *)
Lemma pad_both_counts (audio_a audio_b : list F) (sr_a sr_b : Z) (shift_ms : F)
    (out_a out_b : list F) :
  pad_both audio_a audio_b sr_a sr_b shift_ms = Ok (out_a, out_b) ->
  exists sa sb ea eb : Z,
    ms_to_samples (fneg (py_min (of_int 0) shift_ms)) sr_a = Ok sa /\
    ms_to_samples (py_max (of_int 0) shift_ms) sr_b = Ok sb /\
    ms_to_samples
      (fneg (py_min (of_int 0)
               (fsub (samples_to_ms (sa + len audio_a) sr_a)
                     (samples_to_ms (sb + len audio_b) sr_b)))) sr_a = Ok ea /\
    ms_to_samples
      (py_max (of_int 0)
         (fsub (samples_to_ms (sa + len audio_a) sr_a)
               (samples_to_ms (sb + len audio_b) sr_b))) sr_b = Ok eb /\
    out_a = repeat (of_int 0) (Z.to_nat sa) ++ audio_a
              ++ repeat (of_int 0) (Z.to_nat ea) /\
    out_b = repeat (of_int 0) (Z.to_nat sb) ++ audio_b
              ++ repeat (of_int 0) (Z.to_nat eb).
Proof.
  unfold pad_both. cbv zeta.
  open_bind sa Esa. open_bind sb Esb. open_bind za Za. open_bind zb Zb.
  apply np_zeros_count in Za, Zb. destruct Za as [Pa ->]. destruct Zb as [Pb ->].
  rewrite !Transforms.len_app, !Transforms.len_repeat by assumption.
  open_bind ea Eea. open_bind eb Eeb. open_bind za Za. open_bind zb Zb.
  apply np_zeros_count in Za, Zb. destruct Za as [Qa ->]. destruct Zb as [Qb ->].
  intro E. inversion E; subst out_a out_b.
  exists sa, sb, ea, eb. rewrite <- !app_assoc.
  repeat split; assumption.
Qed.

(** The four counts of [crop_both]. *)
Lemma crop_both_counts (audio_a audio_b : list F) (sr_a sr_b : Z) (shift_ms : F)
    (out_a out_b : list F) :
  crop_both audio_a audio_b sr_a sr_b shift_ms = Ok (out_a, out_b) ->
  exists (sa sb ea eb : Z) (a1 b1 : list F),
    ms_to_samples (py_max (of_int 0) shift_ms) sr_a = Ok sa /\
    ms_to_samples (fneg (py_min (of_int 0) shift_ms)) sr_b = Ok sb /\
    a1 = py_slice audio_a (Some sa) None /\
    b1 = py_slice audio_b (Some sb) None /\
    ms_to_samples
      (py_max (of_int 0)
         (fsub (samples_to_ms (len a1) sr_a) (samples_to_ms (len b1) sr_b)))
      sr_a = Ok ea /\
    ms_to_samples
      (fneg (py_min (of_int 0)
               (fsub (samples_to_ms (len a1) sr_a) (samples_to_ms (len b1) sr_b))))
      sr_b = Ok eb /\
    out_a = (if 0 <? ea then py_slice a1 None (Some (- ea)) else a1) /\
    out_b = (if 0 <? eb then py_slice b1 None (Some (- eb)) else b1).
Proof.
  unfold crop_both. cbv zeta.
  open_bind sa Esa. open_bind sb Esb. open_bind ea Eea. open_bind eb Eeb.
  intro E. inversion E; subst out_a out_b.
  exists sa, sb, ea, eb. eexists. eexists.
  repeat split; try reflexivity; assumption.
Qed.

(** The two counts of [pad_and_crop_one_to_match_other], both at the
    rate of the second waveform, and the length they leave. *)
Lemma pad_and_crop_counts (audio_a audio_b : list F) (sr_a sr_b : Z)
    (shift_ms : F) (out_a out_b : list F) :
  pad_and_crop_one_to_match_other audio_a audio_b sr_a sr_b shift_ms
    = Ok (out_a, out_b) ->
  out_a = audio_a /\
  exists s e : Z,
    ms_to_samples shift_ms sr_b = Ok s /\
    ms_to_samples
      (fsub (samples_to_ms (len audio_a) sr_a)
            (samples_to_ms (Z.max 0 (len audio_b + s)) sr_b)) sr_b = Ok e /\
    len out_b = Z.max 0 (Z.max 0 (len audio_b + s) + e).
Proof.
  unfold pad_and_crop_one_to_match_other. cbv zeta.
  open_bind s Es.
  pose proof (Overlap.len_nonneg audio_b) as Nb.
  assert (Start : forall b1,
             (if s <? 0 then Ok (py_slice audio_b (Some (Z.abs s)) None)
              else z <- np_zeros s;; Ok (z ++ audio_b)) = Ok b1 ->
             len b1 = Z.max 0 (len audio_b + s)).
  { intro b1. destruct (s <? 0) eqn:C.
    - apply Z.ltb_lt in C. intro E; inversion E.
      rewrite Transforms.len_slice. cbn [slice_start slice_stop].
      unfold slice_index.
      replace (Z.abs s <? 0) with false by (symmetry; apply Z.ltb_ge; lia). lia.
    - apply Z.ltb_ge in C.
      destruct (np_zeros s) as [z | e1] eqn:Ez; cbn [bind]; [| discriminate].
      intro E; inversion E. apply np_zeros_count in Ez. destruct Ez as [_ ->].
      rewrite Transforms.len_app, Transforms.len_repeat by exact C. lia. }
  destruct (if s <? 0 then Ok (py_slice audio_b (Some (Z.abs s)) None)
            else z <- np_zeros s;; Ok (z ++ audio_b)) as [b1 | e1] eqn:Eb;
    cbn [bind]; [| discriminate].
  specialize (Start b1 eq_refl). rewrite Start.
  open_bind e Ee.
  pose proof (Overlap.len_nonneg b1) as N1.
  destruct (e <? 0) eqn:C; cbn [bind].
  - apply Z.ltb_lt in C. intro E; inversion E; subst out_a out_b.
    split; [reflexivity |]. exists s, e.
    split; [reflexivity |]. split; [exact Ee |].
    rewrite Transforms.len_slice. cbn [slice_start slice_stop].
    unfold slice_index.
    replace (- Z.abs e <? 0) with true by (symmetry; apply Z.ltb_lt; lia). lia.
  - apply Z.ltb_ge in C.
    destruct (np_zeros e) as [z | e1] eqn:Ez; cbn [bind]; [| discriminate].
    intro E; inversion E; subst out_a out_b.
    apply np_zeros_count in Ez. destruct Ez as [_ ->].
    split; [reflexivity |]. exists s, e.
    split; [reflexivity |]. split; [exact Ee |].
    rewrite Transforms.len_app, Transforms.len_repeat by exact C. lia.
Qed.
End OwnRate.

(** C9, as amended: [ms_to_samples(ms, sr)] is [int(ms / 1000 * sr)]:
    the product as the arithmetic computes it, truncated toward zero and
    never rounded to the nearest integer (first part on exact rationals,
    second part on binary64, where the count is the truncation of the
    value of the float product). Every alignment transform gets its sample
    counts from [ms_to_samples] with the sample rate of the waveform the
    count is applied to: [pad_both] and [crop_both] use the rate of the
    first waveform for the first and of the second for the second;
    [pad_and_crop_one_to_match_other] changes the second waveform only and
    uses its rate for both counts. *)
Theorem displacements_truncate_at_own_rate :
  (forall (ms : Q) (sr k : Z),
     ms_to_samples ms sr = Ok k -> truncation (ms / 1000 * inject_Z sr) k) /\
  (forall (ms : float) (sr k : Z),
     ms_to_samples ms sr = Ok k ->
     exists v : Q,
       float_value (fmul (fdiv ms (of_int 1000)) (of_int sr)) = Some v /\
       truncation v k) /\
  (forall (F : Type) (PF : PyFloat F) (audio_a audio_b : list F) (sr_a sr_b : Z)
          (shift_ms : F) (out_a out_b : list F),
     pad_both audio_a audio_b sr_a sr_b shift_ms = Ok (out_a, out_b) ->
     exists sa sb ea eb : Z,
       ms_to_samples (fneg (py_min (of_int 0) shift_ms)) sr_a = Ok sa /\
       ms_to_samples (py_max (of_int 0) shift_ms) sr_b = Ok sb /\
       ms_to_samples
         (fneg (py_min (of_int 0)
                  (fsub (samples_to_ms (sa + len audio_a) sr_a)
                        (samples_to_ms (sb + len audio_b) sr_b)))) sr_a = Ok ea /\
       ms_to_samples
         (py_max (of_int 0)
            (fsub (samples_to_ms (sa + len audio_a) sr_a)
                  (samples_to_ms (sb + len audio_b) sr_b))) sr_b = Ok eb /\
       out_a = repeat (of_int 0) (Z.to_nat sa) ++ audio_a
                 ++ repeat (of_int 0) (Z.to_nat ea) /\
       out_b = repeat (of_int 0) (Z.to_nat sb) ++ audio_b
                 ++ repeat (of_int 0) (Z.to_nat eb)) /\
  (forall (F : Type) (PF : PyFloat F) (audio_a audio_b : list F) (sr_a sr_b : Z)
          (shift_ms : F) (out_a out_b : list F),
     crop_both audio_a audio_b sr_a sr_b shift_ms = Ok (out_a, out_b) ->
     exists (sa sb ea eb : Z) (a1 b1 : list F),
       ms_to_samples (py_max (of_int 0) shift_ms) sr_a = Ok sa /\
       ms_to_samples (fneg (py_min (of_int 0) shift_ms)) sr_b = Ok sb /\
       a1 = py_slice audio_a (Some sa) None /\
       b1 = py_slice audio_b (Some sb) None /\
       ms_to_samples
         (py_max (of_int 0)
            (fsub (samples_to_ms (len a1) sr_a) (samples_to_ms (len b1) sr_b)))
         sr_a = Ok ea /\
       ms_to_samples
         (fneg (py_min (of_int 0)
                  (fsub (samples_to_ms (len a1) sr_a) (samples_to_ms (len b1) sr_b))))
         sr_b = Ok eb /\
       out_a = (if 0 <? ea then py_slice a1 None (Some (- ea)) else a1) /\
       out_b = (if 0 <? eb then py_slice b1 None (Some (- eb)) else b1)) /\
  (forall (F : Type) (PF : PyFloat F) (audio_a audio_b : list F) (sr_a sr_b : Z)
          (shift_ms : F) (out_a out_b : list F),
     pad_and_crop_one_to_match_other audio_a audio_b sr_a sr_b shift_ms
       = Ok (out_a, out_b) ->
     out_a = audio_a /\
     exists s e : Z,
       ms_to_samples shift_ms sr_b = Ok s /\
       ms_to_samples
         (fsub (samples_to_ms (len audio_a) sr_a)
               (samples_to_ms (Z.max 0 (len audio_b + s)) sr_b)) sr_b = Ok e /\
       len out_b = Z.max 0 (Z.max 0 (len audio_b + s) + e)).
Proof.
  split; [| split; [| split; [| split]]].
  - intros ms sr k E. rewrite ms_to_samples_Q in E. inversion E.
    apply Qtrunc_truncation.
  - apply ms_to_samples_binary64.
  - intros F PF. apply pad_both_counts.
  - intros F PF. apply crop_both_counts.
  - intros F PF. apply pad_and_crop_counts.
Qed.

(** 145 ms at 48 kHz in binary64: the count 6959 is the truncation of
    the value of the float product. *)
Lemma displacements_truncate_example :
  exists v : Q,
    float_value (fmul (fdiv (float_of_Z 145) (of_int 1000)) (of_int 48000))
      = Some v /\
    truncation v 6959.
Proof.
  apply (proj1 (proj2 displacements_truncate_at_own_rate)
           (float_of_Z 145) 48000 6959).
  vm_compute. reflexivity.
Defined.

(** 145 ms at 48 kHz is 6960 samples; the binary64 product is just below
    and the count is 6959. 0.7 ms at 10 kHz is 7 samples, and so is the
    count, the product being just above. *)
Lemma ms_to_samples_binary64_examples :
  ms_to_samples (float_of_Z 145) 48000 = Ok 6959 /\
  ms_to_samples 145%Q 48000 = Ok 6960 /\
  ms_to_samples (fdiv (float_of_Z 7) (float_of_Z 10)) 10000 = Ok 7.
Proof. repeat split; vm_compute; reflexivity. Qed.

End Counts.

(** * Only the second waveform is changed (shign.py, lines 249-267) *)

Module Match.




End Match.

(** * Which lag the estimator returns (shign.py, lines 47-66) *)

Module Lag.

(** [half_idx] of a correlation of [2 * n - 1] entries: [n - 1] when [n]
    is odd and [n] when it is even, as halves round to even. *)
Lemma round_half_parity (n : Z) :
  round_half (2 * n - 1) = n - 1 + (if Z.even n then 1 else 0).
Proof.
  unfold round_half.
  assert (E : Z.even (2 * n - 1) = false).
  { replace (2 * n - 1) with (1 + 2 * (n - 1)) by lia.
    rewrite Z.even_add_mul_2. reflexivity. }
  assert (D : (2 * n - 1) / 2 = n - 1).
  { symmetry. apply (Z.div_unique (2 * n - 1) 2 (n - 1) 1); lia. }
  assert (P : Z.even n = negb (Z.even (n - 1))).
  { replace n with (Z.succ (n - 1)) at 1 by lia.
    rewrite Z.even_succ, <- Z.negb_even. reflexivity. }
  rewrite E, D, P. destruct (Z.even (n - 1)); cbn [negb]; lia.
Qed.

Lemma round_half_near (n : Z) : n - 1 <= 2 * round_half n <= n + 1.
Proof.
  unfold round_half.
  pose proof (Z.div_mod n 2 ltac:(lia)) as D.
  pose proof (Zmod_even n) as M.
  destruct (Z.even n).
  - lia.
  - destruct (Z.even (n / 2)); lia.
Qed.

Lemma slice_assign_repeat {A} (v : A) (k : nat) (lo hi : option Z) :
  py_slice_assign (repeat v k) lo hi v = repeat v k.
Proof.
  apply (nth_ext _ _ v v).
  - rewrite MinOverlap.length_slice_assign. reflexivity.
  - intros i Hi. rewrite MinOverlap.length_slice_assign in Hi.
    rewrite MinOverlap.nth_slice_assign by exact Hi.
    destruct (_ && _); [| reflexivity].
    symmetry. apply nth_repeat_lt. rewrite repeat_length in Hi. exact Hi.
Qed.

Section Generic.
Context {F : Type} `{PyFloat F}.

Ltac open_bind x E :=
  match goal with
  | |- bind ?m _ = Ok _ -> _ =>
      destruct m as [x | ?] eqn:E; cbn [bind]; [| discriminate]
  end.

(** What a returned estimate is made of. *)
Lemma get_shift_ms_inv (audio_a audio_b : list F) (sr_a sr_b : Z)
    (win hop min_overlap_sec max_shift_sec s : F) :
  get_shift_ms audio_a audio_b sr_a sr_b win hop min_overlap_sec max_shift_sec
    = Ok s ->
  exists (rms_a rms_b corr : list F) (half am : Z),
    audio_to_rms_envelope audio_a sr_a win hop = Ok rms_a /\
    audio_to_rms_envelope audio_b sr_b win hop = Ok rms_b /\
    constrained_corr rms_a rms_b hop min_overlap_sec max_shift_sec
      = Ok (corr, half) /\
    np_argmax corr = Ok am /\
    s = frames_to_ms
          (fadd (of_int (am - half))
                (fdiv (of_int (len rms_a - len rms_b)) (of_int 2))) hop.
Proof.
  unfold get_shift_ms.
  open_bind rms_a Ea. open_bind rms_b Eb. open_bind ch Ec. open_bind am Em.
  intro E. inversion E. destruct ch as [corr half]. cbn [fst snd] in *.
  exists rms_a, rms_b, corr, half, am. repeat split; assumption || reflexivity.
Qed.

(** The constrained correlation has one entry per lag. *)
Lemma constrained_corr_length (rms_a rms_b corr : list F) (hop m s : F) (half : Z) :
  constrained_corr rms_a rms_b hop m s = Ok (corr, half) ->
  len corr = len rms_a + len rms_b - 1 /\ 1 <= len rms_a /\ 1 <= len rms_b.
Proof.
  intro Hc. pose proof Hc as Hh.
  apply SelfShift.constrained_corr_half in Hh. destruct Hh as [_ [Na Nb]].
  revert Hc. unfold constrained_corr.
  open_bind cnum En. open_bind cden Ed. open_bind c1 E1. open_bind c2 E2.
  intro E. inversion E; subst. clear E.
  apply SelfShift.correlate_length in En, Ed.
  apply SelfShift.constrain_min_overlap_length in E1.
  apply MaxShift.constrain_max_shift_length in E2.
  unfold np_ones_like in Ed. rewrite !length_map in Ed.
  rewrite Estimate.length_np_divide in E1.
  destruct rms_a; [congruence |]. destruct rms_b; [congruence |].
  rewrite !Overlap.len_cons.
  pose proof (Overlap.len_nonneg rms_a). pose proof (Overlap.len_nonneg rms_b).
  unfold len in *. cbn [List.length] in *. lia.
Qed.

(** With both constraints on, every entry outside the margins or outside
    the window around [half_idx] is the zero the constraints wrote. *)
Lemma constrained_corr_outside (rms_a rms_b corr : list F)
    (hop min_overlap_sec max_shift_sec : F) (n1 n2 half i : Z) :
  feqb min_overlap_sec (of_int 0) = false ->
  feqb max_shift_sec (of_int 0) = false ->
  sec_to_frames min_overlap_sec hop = Ok n1 ->
  sec_to_frames max_shift_sec hop = Ok n2 ->
  1 <= n1 -> 0 <= n2 ->
  constrained_corr rms_a rms_b hop min_overlap_sec max_shift_sec = Ok (corr, half) ->
  0 <= i < len corr ->
  ~ (n1 <= i < len corr - n1 /\ half - n2 <= i < half + n2) ->
  nth (Z.to_nat i) corr (of_int 0) = of_int 0.
Proof.
  intros Z1 Z2 H1 H2 P1 P2 Hc Hi Hout.
  unfold constrained_corr in Hc.
  destruct (correlate rms_a rms_b) as [num | e]; cbn [bind] in Hc;
    [| discriminate].
  destruct (correlate (np_ones_like rms_a) (np_ones_like rms_b)) as [den | e];
    cbn [bind] in Hc; [| discriminate].
  set (c0 := np_divide num den) in *.
  destruct (@MinOverlap.constrain_min_overlap_ends F _ c0 min_overlap_sec hop n1
              Z1 H1 P1) as [c1 [E1 [L1 N1]]].
  rewrite E1 in Hc. cbn [bind] in Hc.
  assert (Ph : 0 <= round_half (len c0) + n2).
  { pose proof (Estimate.round_half_nonneg (Overlap.len_nonneg c0)). lia. }
  destruct (@MaxShift.max_shift_window F _ c1 (round_half (len c0))
              max_shift_sec hop n2 Z2 H2 Ph) as [c2 [E2 [L2 N2]]].
  rewrite E2 in Hc. cbn [bind] in Hc. inversion Hc; subst corr half. clear Hc.
  assert (Lc : len c2 = len c0) by (unfold len; rewrite L2, L1; reflexivity).
  rewrite Lc in Hi, Hout.
  assert (Hn : (Z.to_nat i < List.length c0)%nat) by (unfold len in *; lia).
  rewrite N2 by (rewrite L1; exact Hn). rewrite N1 by exact Hn.
  rewrite Z2Nat.id by lia.
  destruct (Z.leb_spec (round_half (len c0) - n2) i);
    destruct (Z.ltb_spec i (round_half (len c0) + n2));
    cbn [andb]; try reflexivity.
  destruct (Z.ltb_spec i n1); destruct (Z.leb_spec (len c0 - n1) i);
    cbn [orb]; try reflexivity.
  exfalso. apply Hout. lia.
Qed.

(** C7, as amended: when [get_shift_ms(W, W, sr, sr)] returns, with both
    constraints on, the value is [(k - half_idx + 0/2) * hop_length_ms] for
    the index [k] that [np.argmax] picks in the constrained normalized
    correlation of the envelope of [W] with itself. The zero lag is index
    [len(rms) - 1] and [half_idx] is [len(rms) - 1] or [len(rms)] (for an
    even number of frames). If the entry at [k] is not zero, [k] is at
    least [n1] frames from both ends and within [n2] frames of [half_idx]
    ([n1], [n2] the frame counts of [min_overlap_sec] and
    [max_shift_sec]): the estimate is bounded by [max_shift_sec], and by
    nothing closer to 0. *)
Theorem self_shift_is_the_winning_lag (W : list F) (sr : Z)
    (win hop min_overlap_sec max_shift_sec s : F) (n1 n2 : Z) :
  feqb min_overlap_sec (of_int 0) = false ->
  feqb max_shift_sec (of_int 0) = false ->
  sec_to_frames min_overlap_sec hop = Ok n1 ->
  sec_to_frames max_shift_sec hop = Ok n2 ->
  1 <= n1 -> 0 <= n2 ->
  get_shift_ms W W sr sr win hop min_overlap_sec max_shift_sec = Ok s ->
  exists (env corr : list F) (k p : Z),
    audio_to_rms_envelope W sr win hop = Ok env /\
    p = (if Z.even (len env) then 1 else 0) /\
    constrained_corr env env hop min_overlap_sec max_shift_sec
      = Ok (corr, len env - 1 + p) /\
    len corr = 2 * len env - 1 /\
    np_argmax corr = Ok k /\
    s = frames_to_ms
          (fadd (of_int (k - (len env - 1) - p)) (fdiv (of_int 0) (of_int 2)))
          hop /\
    (nth (Z.to_nat k) corr (of_int 0) <> of_int 0 ->
     n1 <= k < 2 * len env - 1 - n1 /\
     - n2 <= k - (len env - 1) - p < n2).
Proof.
  intros Z1 Z2 H1 H2 P1 P2 Hs.
  apply get_shift_ms_inv in Hs.
  destruct Hs as [env [env' [corr [half [k [Ea [Eb [Ec [Ek ->]]]]]]]]].
  rewrite Ea in Eb. inversion Eb; subst env'. clear Eb.
  pose proof Ec as Eh. apply SelfShift.constrained_corr_half in Eh.
  destruct Eh as [Eh _].
  pose proof Ec as Lc. apply constrained_corr_length in Lc.
  destruct Lc as [Lc _].
  replace (len env + len env - 1) with (2 * len env - 1) in Eh, Lc by lia.
  rewrite round_half_parity in Eh.
  exists env, corr, k, (if Z.even (len env) then 1 else 0).
  split; [exact Ea |]. split; [reflexivity |].
  split; [rewrite <- Eh; exact Ec |]. split; [exact Lc |].
  split; [exact Ek |].
  split.
  - replace (len env - len env) with 0 by lia.
    replace (k - (len env - 1) - (if Z.even (len env) then 1 else 0))
      with (k - half) by lia.
    reflexivity.
  - intro Hnz. pose proof Ek as Bk. apply Estimate.np_argmax_bounds in Bk.
    destruct (Z_le_gt_dec n1 k) as [A1 |];
      [destruct (Z_lt_ge_dec k (len corr - n1)) as [A2 |];
       [destruct (Z_le_gt_dec (half - n2) k) as [A3 |];
        [destruct (Z_lt_ge_dec k (half + n2)) as [A4 |] | ] | ] | ].
    1: lia.
    all: exfalso; apply Hnz;
      apply (@constrained_corr_outside env env corr hop min_overlap_sec
               max_shift_sec n1 n2 half k Z1 Z2 H1 H2 P1 P2 Ec Bk); lia.
Qed.

Lemma constrain_max_shift_zeros (k : nat) (half : Z) (max_shift_sec hop : F) (n : Z) :
  sec_to_frames max_shift_sec hop = Ok n ->
  constrain_max_shift (repeat (of_int 0) k) half max_shift_sec hop
  = Ok (repeat (of_int 0) k).
Proof.
  intro Hn. unfold constrain_max_shift. rewrite Hn. cbn [bind].
  destruct (negb (feqb max_shift_sec (of_int 0))); [| reflexivity].
  rewrite !slice_assign_repeat. reflexivity.
Qed.

Lemma argmax_from_zeros (k : nat) (i best_i : Z) :
  fltb (of_int 0) (of_int 0) = false ->
  argmax_from (repeat (of_int 0) k) i (of_int 0) best_i = best_i.
Proof.
  intro Hz. revert i. induction k as [| k IH]; intro i; [reflexivity |].
  cbn [repeat argmax_from]. rewrite Hz. apply IH.
Qed.

(** X4: when the frame count of [min_overlap_sec] reaches the length of
    the correlation (two recordings that together are shorter than the
    required overlap) and the frame count of [max_shift_sec] converts,
    every entry is zeroed, [np.argmax] answers 0 (0 is not below 0), and
    [get_shift_ms] returns
    [(0 - half_idx + (len(rms_a) - len(rms_b)) / 2) * hop_length_ms]: a
    value made of the two envelope lengths and the hop only, not of the
    audio. *)
Theorem short_recordings_shift (audio_a audio_b : list F) (sr_a sr_b : Z)
    (win hop min_overlap_sec max_shift_sec : F) (rms_a rms_b : list F)
    (n n2 : Z) :
  audio_to_rms_envelope audio_a sr_a win hop = Ok rms_a ->
  audio_to_rms_envelope audio_b sr_b win hop = Ok rms_b ->
  rms_a <> [] -> rms_b <> [] ->
  feqb min_overlap_sec (of_int 0) = false ->
  fltb (of_int 0) (of_int 0) = false ->
  sec_to_frames min_overlap_sec hop = Ok n ->
  sec_to_frames max_shift_sec hop = Ok n2 ->
  len rms_a + len rms_b - 1 <= n ->
  get_shift_ms audio_a audio_b sr_a sr_b win hop min_overlap_sec max_shift_sec
  = Ok (frames_to_ms
          (fadd (of_int (0 - round_half (len rms_a + len rms_b - 1)))
                (fdiv (of_int (len rms_a - len rms_b)) (of_int 2))) hop).
Proof.
  intros Ea Eb Na Nb Z1 Hz Hn Hn2 Hshort. unfold get_shift_ms.
  rewrite Ea, Eb. cbn [bind]. unfold constrained_corr.
  destruct (Estimate.correlate_ok Na Nb) as [cnum En]. rewrite En. cbn [bind].
  assert (Na' : np_ones_like rms_a <> [])
    by (destruct rms_a; [congruence | discriminate]).
  assert (Nb' : np_ones_like rms_b <> [])
    by (destruct rms_b; [congruence | discriminate]).
  destruct (Estimate.correlate_ok Na' Nb') as [cden Ed]. rewrite Ed. cbn [bind].
  apply SelfShift.correlate_length in En, Ed.
  unfold np_ones_like in Ed. rewrite !length_map in Ed.
  set (c0 := np_divide cnum cden).
  assert (L0 : len c0 = len rms_a + len rms_b - 1).
  { unfold len, c0. rewrite Estimate.length_np_divide, En, Ed.
    destruct rms_a; [congruence |]. destruct rms_b; [congruence |].
    cbn [List.length]. lia. }
  assert (P0 : 1 <= len c0).
  { rewrite L0. destruct rms_a; [congruence |]. destruct rms_b; [congruence |].
    rewrite !Overlap.len_cons.
    pose proof (Overlap.len_nonneg rms_a). pose proof (Overlap.len_nonneg rms_b).
    lia. }
  destruct (@MinOverlap.constrain_min_overlap_ends F _ c0 min_overlap_sec hop n
              Z1 Hn ltac:(lia)) as [c1 [E1 [L1 N1]]].
  assert (C1 : c1 = repeat (of_int 0) (List.length c0)).
  { apply (nth_ext _ _ (of_int 0) (of_int 0)).
    - rewrite repeat_length. exact L1.
    - intros i Hi. rewrite L1 in Hi. rewrite N1 by exact Hi.
      replace (Z.of_nat i <? n) with true
        by (symmetry; apply Z.ltb_lt; unfold len in *; lia).
      cbn [orb]. symmetry. apply nth_repeat_lt. exact Hi. }
  rewrite E1. cbn [bind].
  rewrite C1, (@constrain_max_shift_zeros _ _ max_shift_sec hop n2 Hn2). cbn [bind fst snd].
  destruct (List.length c0) as [| k] eqn:Ek; [unfold len in P0; lia |].
  cbn [repeat np_argmax]. rewrite (@argmax_from_zeros k 1 0 Hz). cbn [bind].
  rewrite L0. reflexivity.
Qed.

(** X15: a returned estimate is
    [(lag + (len(rms_a) - len(rms_b)) / 2) * hop_length_ms] for a whole
    [lag] (index of the maximum minus [half_idx]) with
    [-len(rms_b) <= lag + (len(rms_a) - len(rms_b)) / 2 <= len(rms_a) - 1]:
    the start of the second recording is never moved further than the two
    envelopes extend. (The bound is stated on twice the shift, a whole
    number.) *)
Theorem shift_within_the_recordings (audio_a audio_b : list F) (sr_a sr_b : Z)
    (win hop min_overlap_sec max_shift_sec s : F) :
  get_shift_ms audio_a audio_b sr_a sr_b win hop min_overlap_sec max_shift_sec
    = Ok s ->
  exists (rms_a rms_b : list F) (lag : Z),
    audio_to_rms_envelope audio_a sr_a win hop = Ok rms_a /\
    audio_to_rms_envelope audio_b sr_b win hop = Ok rms_b /\
    s = frames_to_ms
          (fadd (of_int lag) (fdiv (of_int (len rms_a - len rms_b)) (of_int 2)))
          hop /\
    - (2 * len rms_b) <= 2 * lag + (len rms_a - len rms_b) <= 2 * len rms_a - 2.
Proof.
  intro Hs. apply get_shift_ms_inv in Hs.
  destruct Hs as [rms_a [rms_b [corr [half [k [Ea [Eb [Ec [Ek ->]]]]]]]]].
  pose proof Ec as Eh. apply SelfShift.constrained_corr_half in Eh.
  destruct Eh as [Eh _].
  pose proof Ec as Lc. apply constrained_corr_length in Lc.
  destruct Lc as [Lc _].
  apply Estimate.np_argmax_bounds in Ek. rewrite Lc in Ek.
  pose proof (round_half_near (len rms_a + len rms_b - 1)) as Rh.
  rewrite <- Eh in Rh.
  exists rms_a, rms_b, (k - half).
  split; [exact Ea |]. split; [exact Eb |]. split; [reflexivity |]. lia.
Qed.
End Generic.

(** The recording with one loud passage against itself, default
    parameters ([n1 = 100], [n2 = 3000]): 110 frames, [half_idx = 110],
    the zero lag (index 109) wins and the estimate is -10 ms. *)
Lemma self_shift_one_burst :
  exists (env corr : list Q) (k p : Z),
    audio_to_rms_envelope one_burst 100 25%Q 10%Q = Ok env /\
    p = (if Z.even (len env) then 1 else 0) /\
    constrained_corr env env 10%Q 1%Q 30%Q = Ok (corr, len env - 1 + p) /\
    len corr = 2 * len env - 1 /\
    np_argmax corr = Ok k /\
    (- 10)%Q = frames_to_ms
          (fadd (of_int (k - (len env - 1) - p)) (fdiv (of_int 0) (of_int 2)))
          10%Q /\
    (nth (Z.to_nat k) corr (of_int 0) <> of_int 0 ->
     100 <= k < 2 * len env - 1 - 100 /\
     - 3000 <= k - (len env - 1) - p < 3000).
Proof.
  apply (@self_shift_is_the_winning_lag Q Q_float one_burst 100
           25%Q 10%Q 1%Q 30%Q (- 10)%Q 100 3000).
  - reflexivity.
  - reflexivity.
  - reflexivity.
  - reflexivity.
  - lia.
  - lia.
  - vm_compute. reflexivity.
Defined.

(** Recordings of 70 and 60 samples at 1 kHz (5 and 4 frames) with the
    default overlap of one second (100 frames), in binary64: -35 ms. *)
Lemma short_recordings_shift_example :
  get_shift_ms (steady64 70) (steady64 60) 1000 1000
    (float_of_Z 25) (float_of_Z 10) (float_of_Z 1) (float_of_Z 30)
  = Ok (frames_to_ms
          (fadd (of_int (0 - round_half (len (repeat 0.5%float 5)
                                         + len (repeat 0.5%float 4) - 1)))
                (fdiv (of_int (len (repeat 0.5%float 5) - len (repeat 0.5%float 4)))
                      (of_int 2))) (float_of_Z 10)).
Proof.
  apply (@short_recordings_shift float IEEE_float (steady64 70) (steady64 60)
           1000 1000 (float_of_Z 25) (float_of_Z 10) (float_of_Z 1) (float_of_Z 30)
           (repeat 0.5%float 5) (repeat 0.5%float 4) 100 3000).
  - vm_compute. reflexivity.
  - vm_compute. reflexivity.
  - discriminate.
  - discriminate.
  - vm_compute. reflexivity.
  - vm_compute. reflexivity.
  - vm_compute. reflexivity.
  - vm_compute. reflexivity.
  - vm_compute. discriminate.
Defined.

Lemma short_recordings_shift_value :
  get_shift_ms (steady64 70) (steady64 60) 1000 1000
    (float_of_Z 25) (float_of_Z 10) (float_of_Z 1) (float_of_Z 30)
  = Ok (-35)%float.
Proof. vm_compute. reflexivity. Qed.

(** The same two recordings: the estimate is -35 ms, 3.5 frames, between
    -4 and 4 frames. *)
Lemma shift_within_the_recordings_example :
  exists (rms_a rms_b : list float) (lag : Z),
    audio_to_rms_envelope (steady64 70) 1000 (float_of_Z 25) (float_of_Z 10)
      = Ok rms_a /\
    audio_to_rms_envelope (steady64 60) 1000 (float_of_Z 25) (float_of_Z 10)
      = Ok rms_b /\
    (-35)%float
    = frames_to_ms
        (fadd (of_int lag) (fdiv (of_int (len rms_a - len rms_b)) (of_int 2)))
        (float_of_Z 10) /\
    - (2 * len rms_b) <= 2 * lag + (len rms_a - len rms_b) <= 2 * len rms_a - 2.
Proof.
  apply (@shift_within_the_recordings float IEEE_float (steady64 70) (steady64 60)
           1000 1000 (float_of_Z 25) (float_of_Z 10) (float_of_Z 1) (float_of_Z 30)
           (-35)%float).
  vm_compute. reflexivity.
Defined.

End Lag.
